(** * yeet-tube: the download-tracking pipeline

    A shallow embedding of [downloader/downloader.go] and [tui/app.go].

    Conventions.
    - A Go [string] is a Rocq [string]: a sequence of 8-bit characters.
    - A Go [float64] is the rational it denotes ([Q]). A decimal literal,
      a parsed numeral and the result of a division or a multiplication are
      rounded to the nearest binary64 number, ties to even ([Float64]);
      the range error of [strconv.ParseFloat] is written out.
    - Functions of the Go standard library whose behaviour on non-ASCII
      text the repository does not fix ([strings.ToLower], [strings.ToUpper],
      [strings.TrimSpace]) and the external widgets are parameters; ASCII
      instances are given for running the definitions.
    - A goroutine that panics terminates the process: fallible code returns
      an [outcome]. *)

From Stdlib Require Import ZArith QArith Lia Ascii String Bool SpecFloat.
From stdpp Require Import base option list strings gmap.

Set Warnings "-register-all".

(* ===================================================================== *)
(** * Part I: definitions *)
(* ===================================================================== *)

(** ** Go strings *)

Module GoStr.

(** [len(s)] *)
Fixpoint len (s : string) : nat :=
  match s with
  | EmptyString => 0
  | String _ s' => S (len s')
  end.

(** [s[n:]] *)
Fixpoint from (n : nat) (s : string) : string :=
  match n, s with
  | 0, _ => s
  | S n', String _ s' => from n' s'
  | S _, EmptyString => EmptyString
  end.

(** [s[:n]] *)
Fixpoint upto (n : nat) (s : string) : string :=
  match n, s with
  | 0, _ => EmptyString
  | S n', String c s' => String c (upto n' s')
  | S _, EmptyString => EmptyString
  end.

(** [strings.HasPrefix(s, p)] *)
Fixpoint HasPrefix (s p : string) {struct p} : bool :=
  match p, s with
  | EmptyString, _ => true
  | String a p', String b s' => if Ascii.eqb a b then HasPrefix s' p' else false
  | String _ _, EmptyString => false
  end.

(** [strings.Index(s, sub)]: the first position at which [sub] occurs;
    [None] stands for the result -1. *)
Fixpoint Index (s sub : string) : option nat :=
  if HasPrefix s sub then Some 0
  else match s with
       | EmptyString => None
       | String _ s' => S <$> Index s' sub
       end.

(** [strings.Contains(s, sub)] *)
Definition Contains (s sub : string) : bool :=
  match Index s sub with Some _ => true | None => false end.

(** The longest prefix whose characters satisfy [p], and what follows. *)
Fixpoint span (p : ascii -> bool) (s : string) : string * string :=
  match s with
  | EmptyString => (EmptyString, EmptyString)
  | String c s' =>
      if p c then let '(a, b) := span p s' in (String c a, b)
      else (EmptyString, s)
  end.

Fixpoint all (p : ascii -> bool) (s : string) : bool :=
  match s with
  | EmptyString => true
  | String c s' => p c && all p s'
  end.

Definition is_empty (s : string) : bool :=
  match s with EmptyString => true | _ => false end.

Definition in_range (lo hi : nat) (c : ascii) : bool :=
  (lo <=? nat_of_ascii c)%nat && (nat_of_ascii c <=? hi)%nat.

(** ASCII case mapping: what [strings.ToLower] and [strings.ToUpper] do
    on ASCII text. *)
Definition lower_ascii (c : ascii) : ascii :=
  if in_range 65 90 c then ascii_of_nat (nat_of_ascii c + 32) else c.
Definition upper_ascii (c : ascii) : ascii :=
  if in_range 97 122 c then ascii_of_nat (nat_of_ascii c - 32) else c.

Fixpoint map (f : ascii -> ascii) (s : string) : string :=
  match s with
  | EmptyString => EmptyString
  | String c s' => String (f c) (map f s')
  end.

Definition ascii_ToLower : string -> string := map lower_ascii.
Definition ascii_ToUpper : string -> string := map upper_ascii.

(** The functions of package [strings] that depend on Unicode tables. *)
Class Strings : Type := {
  ToLower : string -> string;
  ToUpper : string -> string;
  TrimSpace : string -> string
}.

End GoStr.


(** ** float64 *)

Module Float64.

(** The rational a binary64 datum denotes; infinities and NaN, which no
    value of the program is, are sent to 0. *)
Definition SF2Q (f : spec_float) : Q :=
  match f with
  | S754_finite s m e =>
      let n := if s then Z.neg m else Z.pos m in
      match e with
      | Z0 => inject_Z n
      | Zpos p => inject_Z (n * Z.pos (2 ^ p))
      | Zneg p => Qmake n (2 ^ p)
      end
  | _ => 0
  end.

(** An integer as an unrounded datum with exponent 0. *)
Definition exact (z : Z) : spec_float :=
  match z with
  | Z0 => S754_zero false
  | Zpos m => S754_finite false m 0
  | Zneg m => S754_finite true m 0
  end.

(** The binary64 number nearest to [q], ties to even: the correctly
    rounded quotient of numerator and denominator, with 53 bits of
    precision and exponents up to 1024. *)
Definition nearest (q : Q) : spec_float :=
  SFdiv 53 1024 (exact (Qnum (Qred q))) (exact (Z.pos (Qden (Qred q)))).

Definition round64 (q : Q) : Q := Qred (SF2Q (nearest q)).

(** A datum that is not a negative number. *)
Definition not_negative (f : spec_float) : Prop :=
  match f with S754_finite true _ _ => False | _ => True end.

(** [a / b] and [a * b] on [float64] *)
Definition fdiv (a b : Q) : Q := round64 (a / b).
Definition fmul (a b : Q) : Q := round64 (a * b).

End Float64.


(** ** downloader/downloader.go *)

Module Downloader.
Import GoStr.

(** The result of running code that may panic. *)
Inductive outcome (A : Type) : Type :=
| Returned (a : A)
| Panicked (why : string).
Arguments Returned {A} a.
Arguments Panicked {A} why.

(** [ProgressFractionMsg] *)
Record ProgressFractionMsg : Type := mkProgress {
  Fraction : Q;
  Line : string
}.

(** [TitleFetchedMsg]; [Error] is [None] for [nil]. *)
Record TitleFetchedMsg : Type := mkTitleFetched {
  tf_URL : string;
  tf_Title : string;
  tf_Error : option string
}.

(** [VideoInfo]; [DownloadedAt] is an instant on an integer clock. *)
Record VideoInfo : Type := mkVideoInfo {
  URL : string;
  Title : string;
  Duration : Q;
  Resolution : string;
  Width : Z;
  Height : Z;
  FPS : Z;
  VBR : Q;
  ABR : Q;
  TBR : Q;
  Filesize : Z;
  DownloadedAt : Z
}.

(** *** The operating system, as the supervisor sees it *)

(** Files by path; a path without a binding cannot be read. *)
Abbreviation FS := (gmap string string).

(** What [exec.Command(argv...)] does when it is set up, started and left
    to run with both output pipes read to the end. A started process
    writes files of its own: [files_after] takes the files at its start
    to the files at its exit. *)
Record Process : Type := mkProcess {
  stderr_pipe_err : option string;   (* cmd.StderrPipe() *)
  stdout_pipe_err : option string;   (* cmd.StdoutPipe() *)
  start_err : option string;         (* cmd.Start() *)
  stderr_lines : list string;        (* tokens of the scanner on stderr *)
  stderr_scan_err : option string;   (* scanner.Err() on stderr *)
  stdout_lines : list string;
  stdout_scan_err : option string;
  wait_err : option string;          (* cmd.Wait() *)
  files_after : FS -> FS             (* what the process leaves on disk *)
}.

(** The process got as far as running: no pipe and no start failed. *)
Definition launched (p : Process) : bool :=
  match stderr_pipe_err p, stdout_pipe_err p, start_err p with
  | None, None, None => true
  | _, _, _ => false
  end.

(** What [cmd.Run()] with a buffer on stdout yields. The two queries run
    this way, [--get-title] and [--dump-json], only print. *)
Record RunResult : Type := mkRun {
  run_err : option string;
  run_stdout : string
}.

(** The processes behind [exec.Command]. *)
Class System : Type := {
  os_start : list string -> Process;
  os_run : list string -> RunResult
}.

(** *** JSON, as [encoding/json] hands it over *)

(** A value decoded into [interface{}]. *)
Inductive json_value : Type :=
| JNull
| JBool (b : bool)
| JNumber (q : Q)                               (* float64 *)
| JString (s : string)
| JArray (l : list json_value)
| JObject (m : list (string * json_value)).

(** [json.Unmarshal(data, &infos)] on a nil slice: a syntax error leaves
    the slice untouched; otherwise the slice holds what was decoded, and
    [type_err] tells whether an error was returned along with it. *)
Inductive UnmarshalResult : Type :=
| Invalid
| Decoded (infos : list VideoInfo) (type_err : bool).

(** [encoding/json]: decoding into [map[string]interface{}] ([None] is an
    error), decoding into [[]VideoInfo], and [json.MarshalIndent]. *)
Class Json : Type := {
  json_Unmarshal_object : string -> option (gmap string json_value);
  json_Unmarshal_infos : string -> UnmarshalResult;
  json_MarshalIndent : list VideoInfo -> option string
}.

(** *** [parseProgress] *)

(** The classes of the pattern: [\s] is [[\t\n\f\r ]], [\d] is [[0-9]]. *)
Definition is_space (c : ascii) : bool :=
  match nat_of_ascii c with
  | 9 | 10 | 12 | 13 | 32 => true
  | _ => false
  end.

Definition is_digit (c : ascii) : bool := in_range 48 57 c.

(** The pattern [\[download\]\s+(\d+(?:\.\d+)?)%] tried at the start of [s]:
    the whole match and the first group. Both repetitions are greedy and
    what follows each cannot start with a character of its class, so the
    longest run is the only candidate; the optional group is tried first
    and, when [s] goes on with a dot, the percent sign cannot follow the
    integer part directly. *)
Definition match_here (s : string) : option (string * string) :=
  if HasPrefix s "[download]" then
    let '(ws, r1) := span is_space (from 10 s) in
    if is_empty ws then None else
    let '(ip, r2) := span is_digit r1 in
    if is_empty ip then None else
    match r2 with
    | String c r3 =>
        if Ascii.eqb c "%" then Some ("[download]" +:+ ws +:+ ip +:+ "%", ip)
        else if Ascii.eqb c "." then
          let '(fp, r4) := span is_digit r3 in
          if is_empty fp then None else
          match r4 with
          | String c' _ =>
              if Ascii.eqb c' "%" then
                Some ("[download]" +:+ ws +:+ ip +:+ "." +:+ fp +:+ "%",
                      ip +:+ "." +:+ fp)
              else None
          | EmptyString => None
          end
        else None
    | EmptyString => None
    end
  else None.

(** [downloadRegex.FindStringSubmatch(line)]: the leftmost match, as the
    slice of the whole match and the group; [nil] without a match. *)
Fixpoint FindStringSubmatch (line : string) : list string :=
  match match_here line with
  | Some (whole, g) => [whole; g]
  | None =>
      match line with
      | EmptyString => []
      | String _ line' => FindStringSubmatch line'
      end
  end.

Definition digit_value (c : ascii) : Z := Z.of_nat (nat_of_ascii c) - 48.

Fixpoint digits_value (acc : Z) (s : string) : Z :=
  match s with
  | EmptyString => acc
  | String c s' => digits_value (10 * acc + digit_value c) s'
  end.

(** Decimal numerals at or above this bound round to infinity in
    [float64]: [strconv.ParseFloat] then returns a range error. Below it
    the result is the nearest [float64]. *)
Definition float64_overflow : Q := inject_Z (2 ^ 1024 - 2 ^ 970).

Definition in_float64_range (v : Q) : option Q :=
  if Qle_bool float64_overflow v then None else Some (Float64.round64 v).

(** [strconv.ParseFloat(s, 64)] on the numerals the group can hold,
    digits with an optional fractional part; [None] is a non-nil error.
    No other string reaches it. *)
Definition ParseFloat (s : string) : option Q :=
  let '(ip, r) := span is_digit s in
  if is_empty ip then None else
  match r with
  | EmptyString => in_float64_range (inject_Z (digits_value 0 ip))
  | String "." fp =>
      if is_empty fp || negb (all is_digit fp) then None
      else in_float64_range
             (Qmake (digits_value 0 (ip +:+ fp)) (Z.to_pos (10 ^ Z.of_nat (len fp))))
  | _ => None
  end.

Section WithStrings.

Context {strs : Strings}.

(** The stage-based fallback of [parseProgress], on the lower-cased line. *)
Definition stage_progress (line : string) : Q :=
  if Contains line "extracting" || Contains line "downloading webpage"
  then Float64.round64 (5 # 100)
  else if Contains line "[download]" && Contains line "%" then Float64.round64 (3 # 10)
  else if Contains line "downloading video" then Float64.round64 (4 # 10)
  else if Contains line "downloading audio" then Float64.round64 (7 # 10)
  else if Contains line "merging" || Contains line "post-processing"
  then Float64.round64 (9 # 10)
  else if Contains line "finished" || Contains line "completed" then 1
  else -1.

Definition parseProgress (line : string) : Q :=
  let fallback := stage_progress (ToLower line) in
  match FindStringSubmatch line with
  | _ :: g :: _ =>
      match ParseFloat g with
      | Some percent => Float64.fdiv percent 100
      | None => fallback
      end
  | _ => fallback
  end.

(** [readOutput]: the calls of the callback, in order, for a pipe whose
    scanner yields [lines] and then stops with [scan_err]. *)
Definition readOutput (lines : list string) (scan_err : option string)
    (source : string) : list ProgressFractionMsg :=
  flat_map (fun text =>
              let line := TrimSpace text in
              if is_empty line then []
              else [mkProgress (parseProgress line) line]) lines
  ++ match scan_err with
     | Some e => [mkProgress (-1) ("❌ Error reading " +:+ source +:+ ": " +:+ e)]
     | None => []
     end.

End WithStrings.

(** *** [extractURLName] and the title lookup *)

Definition extractURLName (url : string) : string :=
  let url := match Index url "://" with
             | Some idx => from (idx + 3) url
             | None => url
             end in
  let generic := if (50 <? len url)%nat then upto 47 url +:+ "..." else url in
  if Contains url "youtube.com/watch?v=" then
    match Index url "v=" with
    | Some idx =>
        let videoID := from (idx + 2) url in
        let videoID := match Index videoID "&" with
                       | Some idx => upto idx videoID
                       | None => videoID
                       end in
        "YouTube Video: " +:+ videoID
    | None => generic
    end
  else if Contains url "youtu.be/" then
    match Index url "youtu.be/" with
    | Some idx =>
        let videoID := from (idx + 9) url in
        let videoID := match Index videoID "?" with
                       | Some idx => upto idx videoID
                       | None => videoID
                       end in
        "YouTube Video: " +:+ videoID
    | None => generic
    end
  else generic.

Definition title_command (url : string) : list string :=
  ["yt-dlp"; "--get-title"; url].

Definition download_command (url : string) : list string :=
  ["yt-dlp"; "-f"; "bestvideo[height<=2160]+bestaudio/best";
   "--merge-output-format"; "mp4"; "--newline"; url].

Definition metadata_command (url : string) : list string :=
  ["yt-dlp"; "--dump-json"; "-f"; "bestvideo+bestaudio/best"; url].

(** [v.(string)]: a failed assertion without the comma-ok form panics. *)
Definition assert_string (v : option json_value) : outcome string :=
  match v with
  | Some (JString s) => Returned s
  | _ => Panicked "interface conversion: interface {} is not string"
  end.

(** [x, ok := v.(float64)] and [x, ok := v.(string)] *)
Definition as_float64 (v : option json_value) : option Q :=
  match v with Some (JNumber q) => Some q | _ => None end.

Definition as_string (v : option json_value) : option string :=
  match v with Some (JString s) => Some s | _ => None end.

(** [int(f)] and [int64(f)]: truncation towards zero; a value that does
    not fit 64 bits converts, on amd64, to the least [int64]. *)
Definition int_of_float (q : Q) : Z :=
  let z := Z.quot (Qnum q) (Z.pos (Qden q)) in
  if (- 2 ^ 63 <=? z)%Z && (z <? 2 ^ 63)%Z then z else (- 2 ^ 63)%Z.

(** Two goroutines calling the same callback: [sched] picks who is next. *)
Fixpoint interleave {A : Type} (sched : list bool) (xs ys : list A) : list A :=
  match sched with
  | [] => xs ++ ys
  | true :: sched' =>
      match xs with
      | x :: xs' => x :: interleave sched' xs' ys
      | [] => ys
      end
  | false :: sched' =>
      match ys with
      | y :: ys' => y :: interleave sched' xs ys'
      | [] => xs
      end
  end.

Section WithSystem.

Context {strs : Strings} {sys : System} {json : Json}.

(** [FetchTitleAsync]: the message handed to the callback. The deadline of
    the context shows as an error of the run. *)
Definition FetchTitleAsync (url : string) : TitleFetchedMsg :=
  let r := os_run (title_command url) in
  let title := match run_err r with
               | None => TrimSpace (run_stdout r)
               | Some _ => ""
               end in
  if is_empty title then
    match run_err r with
    | Some err => mkTitleFetched url (extractURLName url) (Some err)
    | None => mkTitleFetched url (extractURLName url) None
    end
  else mkTitleFetched url title None.

(** The last lines of [saveVideoInfo]: read, append, rewrite. Errors of
    [json.Unmarshal] and of the write are dropped by the source; a write
    is taken to succeed. *)
Definition append_info (info : VideoInfo) (path : string) (fs : FS) : FS :=
  let infos := match fs !! path with
               | Some data =>
                   match json_Unmarshal_infos data with
                   | Decoded l _ => l
                   | Invalid => []
                   end
               | None => []
               end in
  let infos := infos ++ [info] in
  match json_MarshalIndent infos with
  | Some data => <[path := data]> fs
  | None => fs
  end.

(** [saveVideoInfo]; a field whose assertion fails keeps its zero value. *)
Definition saveVideoInfo (url path : string) (now : Z) (fs : FS) : outcome FS :=
  let r := os_run (metadata_command url) in
  match run_err r with
  | Some _ => Returned fs
  | None =>
      match json_Unmarshal_object (run_stdout r) with
      | None => Returned fs
      | Some raw =>
          match assert_string (raw !! "title") with
          | Panicked why => Panicked why
          | Returned title =>
              let info :=
                {| URL := url;
                   Title := title;
                   Duration := default 0%Q (as_float64 (raw !! "duration"));
                   Resolution := default "" (as_string (raw !! "resolution"));
                   Width := default 0%Z (int_of_float <$> as_float64 (raw !! "width"));
                   Height := default 0%Z (int_of_float <$> as_float64 (raw !! "height"));
                   FPS := default 0%Z (int_of_float <$> as_float64 (raw !! "fps"));
                   VBR := default 0%Q (as_float64 (raw !! "vbr"));
                   ABR := default 0%Q (as_float64 (raw !! "abr"));
                   TBR := default 0%Q (as_float64 (raw !! "tbr"));
                   Filesize := default 0%Z (int_of_float <$> as_float64 (raw !! "filesize"));
                   DownloadedAt := now |} in
              Returned (append_info info path fs)
          end
      end
  end.

(** [DownloadStreamWithProgress]: the calls of the callback made by the
    goroutine, in order, and how the goroutine ends: the files it leaves,
    or a panic. After [cmd.Wait()] the files are those the download
    process left. *)
Definition DownloadStreamWithProgress (url : string) (sched : list bool)
    (now : Z) (fs : FS) : list ProgressFractionMsg * outcome FS :=
  let p := os_start (download_command url) in
  match stderr_pipe_err p with
  | Some err =>
      ([mkProgress 0 ("❌ Error creating stderr pipe: " +:+ err)], Returned fs)
  | None =>
  match stdout_pipe_err p with
  | Some err =>
      ([mkProgress 0 ("❌ Error creating stdout pipe: " +:+ err)], Returned fs)
  | None =>
  match start_err p with
  | Some err =>
      ([mkProgress 0 ("❌ Error starting download: " +:+ err)], Returned fs)
  | None =>
      let readers :=
        interleave sched
          (readOutput (stderr_lines p) (stderr_scan_err p) "stderr")
          (readOutput (stdout_lines p) (stdout_scan_err p) "stdout") in
      let fs := files_after p fs in
      match wait_err p with
      | Some err =>
          (readers ++ [mkProgress 1 ("❌ Download failed: " +:+ err);
                       mkProgress 1 ""], Returned fs)
      | None =>
          match saveVideoInfo url "downloads.json" now fs with
          | Returned fs' =>
              (readers ++ [mkProgress 1 "✅ Variant pruned - Timeline restored!";
                           mkProgress 1 ""], Returned fs')
          | Panicked why =>
              (readers ++ [mkProgress 1 "✅ Variant pruned - Timeline restored!"],
               Panicked why)
          end
      end
  end end end.

(** [FetchTitle], the synchronous lookup, for the outcome [r] of its run
    (its context has a deadline of its own): the title and the error. *)
Definition FetchTitle (url : string) (r : RunResult) : string * option string :=
  match run_err r with
  | Some err => (extractURLName url, Some err)
  | None =>
      let title := TrimSpace (run_stdout r) in
      if is_empty title then (extractURLName url, None) else (title, None)
  end.

(** [lineContains] and [contains], the case-blind helpers. *)
Definition lineContains (line substr : string) : bool :=
  Contains (ToLower line) (ToLower substr).

Definition contains (s substr : string) : option nat :=
  Index (ToLower s) (ToLower substr).

End WithSystem.

End Downloader.


(** ** tui/app.go *)

Module Tui.
Import GoStr.
Import Downloader.

(** A buffered channel of progress messages. *)
Record chan : Type := mkChan {
  buf : list ProgressFractionMsg;
  cap : nat;
  closed : bool
}.

(** [make(chan downloader.ProgressFractionMsg, n)] *)
Definition make_chan (n : nat) : chan :=
  {| buf := []; cap := n; closed := false |}.

(** [select { case ch <- m: default: }]: never waits. *)
Definition try_send (ch : chan) (m : ProgressFractionMsg) : outcome chan :=
  if closed ch then Panicked "send on closed channel"
  else if (length (buf ch) <? cap ch)%nat
       then Returned {| buf := buf ch ++ [m]; cap := cap ch; closed := closed ch |}
       else Returned ch.

(** [select { case m, ok := <-ch: ... default: }] *)
Inductive recv : Type :=
| Received (m : ProgressFractionMsg) (ch' : chan)   (* ok = true *)
| ChanClosed                                        (* ok = false *)
| NotReady.                                         (* default *)

Definition try_recv (ch : chan) : recv :=
  match buf ch with
  | m :: rest => Received m {| buf := rest; cap := cap ch; closed := closed ch |}
  | [] => if closed ch then ChanClosed else NotReady
  end.

(** [VideoDownload]; the queue holds pointers to these, the channel is
    what the entry shares with its producer. *)
Record VideoDownload : Type := mkVideoDownload {
  vd_URL : string;
  Name : string;
  Percent : Q;
  Log : list string;
  ProgressCh : chan;
  Done : bool;
  TitleFetched : bool
}.

(** The messages [Update] can receive. *)
Inductive Msg : Type :=
| WindowSizeMsg (width height : Z)
| titleFetchedMsg (url title : string) (err : option string)
| KeyMsg (key : string)                 (* msg.String() *)
| tickMsg
| setFormatMsg (format : string)
| otherMsg.                             (* any other message of the runtime *)

(** The commands [Update] can return; [startDownloadCmd] names its entry
    by its position in the queue. *)
Inductive Cmd : Type :=
| Quit
| tickCmd
| fetchTitleCmd (url : string)
| startDownloadCmd (entry : nat) (format : string).

Definition Qlt_bool (a b : Q) : bool := negb (Qle_bool b a).

(** [truncateString], for a bound of at least 3, as [Update] calls it
    (with 28); below 3 the slice [s[:maxLen-3]] of the source panics on a
    longer string. *)
Definition truncateString (s : string) (maxLen : nat) : string :=
  if (len s <=? maxLen)%nat then s else upto (maxLen - 3) s +:+ "...".

(** The entry the enter key builds for a URL. *)
Definition new_download (url : string) : VideoDownload :=
  {| vd_URL := url;
     Name := "◉ SCANNING TIMELINE...";
     Percent := 0;
     Log := [];
     ProgressCh := make_chan 50;
     Done := false;
     TitleFetched := false |}.

(** The messages [n] successive non-blocking receives take from a channel. *)
Fixpoint recv_n (n : nat) (ch : chan) : list ProgressFractionMsg :=
  match n with
  | 0 => []
  | S n' =>
      match try_recv ch with
      | Received m ch' => m :: recv_n n' ch'
      | ChanClosed => []
      | NotReady => []
      end
  end.

(** What a title message for [url] may do to an entry: nothing, or give
    it a name of at most 28 bytes and mark its title as fetched. *)
Definition renamed (url : string) (old new : VideoDownload) : Prop :=
  new = old \/
  (vd_URL old = url /\ (len (Name new) <= 28)%nat /\
   new = mkVideoDownload (vd_URL old) (Name new) (Percent old) (Log old)
           (ProgressCh old) (Done old) true).

(** What one pass of the drain loop may do to the channel of an entry:
    take its oldest message, unless the entry is done. *)
Definition drained (old new : VideoDownload) : Prop :=
  vd_URL new = vd_URL old /\ Name new = Name old /\
  buf (ProgressCh new) =
    (if Done old then buf (ProgressCh old) else drop 1 (buf (ProgressCh old))).

(** What the loop keeps of an entry whatever it drains. *)
Definition well_kept (vd : VideoDownload) : Prop :=
  closed (ProgressCh vd) = false /\
  (length (Log vd) <= 5)%nat /\
  Forall (fun line => line <> "") (Log vd) /\
  (0 <= Percent vd)%Q.

(** The callback built by [startDownloadCmd], run over the calls the
    supervisor makes. *)
Fixpoint deliver (ch : chan) (calls : list ProgressFractionMsg) : outcome chan :=
  match calls with
  | [] => Returned ch
  | m :: calls' =>
      match try_send ch m with
      | Returned ch' => deliver ch' calls'
      | Panicked why => Panicked why
      end
  end.

(** What the program takes from outside the repository: the text input
    of the bubbles library, [fmt.Sprintf("%.1f", x)], and the text that
    [formattedHexStream] draws from [math/rand]. *)
Class Widgets : Type := {
  textinput : Type;
  ti_Value : textinput -> string;
  ti_SetValue : string -> textinput -> textinput;
  ti_Update : textinput -> Msg -> textinput;
  fmt_1f : Q -> string;
  formattedHexStream : nat -> nat -> string
}.

Section WithWidgets.

Context {strs : Strings} {sys : System} {json : Json} {wid : Widgets}.

(** [model] *)
Record model : Type := mkModel {
  textInput : textinput;
  status : string;
  videoQueue : list VideoDownload;
  history : list VideoInfo;
  selectedIndex : Z;
  windowWidth : Z;
  windowHeight : Z;
  hexStream : string;
  downloadFormat : string
}.

(** [loadHistory] *)
Definition loadHistory (path : string) (fs : FS) : list VideoInfo :=
  match fs !! path with
  | None => []
  | Some data =>
      match json_Unmarshal_infos data with
      | Decoded infos _ => infos
      | Invalid => []
      end
  end.

(** The [titleFetchedMsg] case: the first entry with the URL of the
    message is renamed, then the loop breaks. *)
Fixpoint apply_title (url title : string) (err : option string)
    (st : string) (queue : list VideoDownload) : string * list VideoDownload :=
  match queue with
  | [] => (st, [])
  | vd :: rest =>
      if String.eqb (vd_URL vd) url then
        if bool_decide (err = None) && negb (is_empty title) then
          let name := truncateString (ToUpper title) 28 in
          ("✔ VARIANT CASE IDENTIFIED: " +:+ name,
           mkVideoDownload (vd_URL vd) name (Percent vd) (Log vd)
             (ProgressCh vd) (Done vd) true :: rest)
        else
          let name := truncateString (ToUpper url) 28 in
          (match err with
           | Some _ => "⚠ CASE IDENTIFICATION FAILED • USING RAW SEQUENCE"
           | None => st
           end,
           mkVideoDownload (vd_URL vd) name (Percent vd) (Log vd)
             (ProgressCh vd) (Done vd) true :: rest)
      else
        let '(st', rest') := apply_title url title err st rest in
        (st', vd :: rest')
  end.

(** What one pass of the drain loop mutates besides the entries. *)
Record shared : Type := mkShared {
  sh_status : string;
  sh_history : list VideoInfo;
  sh_selectedIndex : Z
}.

(** One message taken off the channel of an entry. *)
Definition apply_progress (vd : VideoDownload) (m : ProgressFractionMsg)
    (ch' : chan) : VideoDownload :=
  let percent := if Qle_bool 0 (Fraction m) then Fraction m else Percent vd in
  let log := if is_empty (Line m) then Log vd
             else let l := Log vd ++ [Line m] in
                  if (5 <? length l)%nat then drop 1 l else l in
  mkVideoDownload (vd_URL vd) (Name vd) percent log ch' (Done vd) (TitleFetched vd).

(** The body of the loop over the queue, for one entry. *)
Definition drain_entry (fs : FS) (sh : shared) (vd : VideoDownload)
    : shared * VideoDownload :=
  if Done vd then (sh, vd)
  else
    match try_recv (ProgressCh vd) with
    | ChanClosed =>
        let hist := loadHistory "downloads.json" fs in
        let n := Z.of_nat (length hist) in
        (mkShared ("✔ ARCHIVE COMPLETE • " +:+ Name vd) hist
           (if (n <=? sh_selectedIndex sh)%Z then (n - 1)%Z else sh_selectedIndex sh),
         mkVideoDownload (vd_URL vd) (Name vd) (Percent vd) (Log vd)
           (ProgressCh vd) true (TitleFetched vd))
    | Received m ch' =>
        (if Qlt_bool 0 (Fraction m) && Qlt_bool (Fraction m) 1 && TitleFetched vd
         then mkShared ("◉ ARCHIVING VARIANT: " +:+ Name vd +:+ " ["
                        +:+ fmt_1f (Float64.fmul (Fraction m) 100) +:+ "%]")
                (sh_history sh) (sh_selectedIndex sh)
         else sh,
         apply_progress vd m ch')
    | NotReady => (sh, vd)
    end.

Fixpoint drain_queue (fs : FS) (sh : shared) (queue : list VideoDownload)
    : shared * list VideoDownload :=
  match queue with
  | [] => (sh, [])
  | vd :: rest =>
      let '(sh1, vd') := drain_entry fs sh vd in
      let '(sh2, rest') := drain_queue fs sh1 rest in
      (sh2, vd' :: rest')
  end.

(** [InitialModel], for a fresh text input and the first random text. *)
Definition InitialModel (ti : textinput) (hex : string) (fs : FS) : model :=
  {| textInput := ti;
     status := "SYSTEM ONLINE • READY FOR VARIANT INGEST";
     videoQueue := [];
     history := loadHistory "downloads.json" fs;
     selectedIndex := 0;
     windowWidth := 120;
     windowHeight := 40;
     hexStream := hex;
     downloadFormat := "mp4" |}.

(** [Init] *)
Definition Init (m : model) : list Cmd := [tickCmd].

(** The [tea.KeyMsg] case for the keys that do not quit. *)
Definition key_pressed (m : model) (key : string) : model * list Cmd :=
  if String.eqb key "m" then
    (mkModel (textInput m) (status m) (videoQueue m) (history m)
       (selectedIndex m) (windowWidth m) (windowHeight m) (hexStream m)
       (if String.eqb (downloadFormat m) "mp4" then "mp3" else "mp4"), [])
  else if String.eqb key "enter" then
    let url := TrimSpace (ti_Value (textInput m)) in
    if is_empty url then
      (mkModel (textInput m) "⚠ INPUT REJECTED • INVALID VARIANT SEQUENCE"
         (videoQueue m) (history m) (selectedIndex m) (windowWidth m)
         (windowHeight m) (hexStream m) (downloadFormat m), [])
    else
      let vd := new_download url in
      (mkModel (ti_SetValue "" (textInput m))
         "✔ VARIANT SEQUENCE ACCEPTED • INITIATING CASE ANALYSIS"
         (videoQueue m ++ [vd]) (history m) (selectedIndex m) (windowWidth m)
         (windowHeight m) (hexStream m) (downloadFormat m),
       [fetchTitleCmd url;
        startDownloadCmd (length (videoQueue m)) (downloadFormat m)])
  else if String.eqb key "up" then
    (mkModel (textInput m) (status m) (videoQueue m) (history m)
       (if (0 <? selectedIndex m)%Z then (selectedIndex m - 1)%Z else selectedIndex m)
       (windowWidth m) (windowHeight m) (hexStream m) (downloadFormat m), [])
  else if String.eqb key "down" then
    (mkModel (textInput m) (status m) (videoQueue m) (history m)
       (if (selectedIndex m <? Z.of_nat (length (history m)) - 1)%Z
        then (selectedIndex m + 1)%Z else selectedIndex m)
       (windowWidth m) (windowHeight m) (hexStream m) (downloadFormat m), [])
  else (m, []).

(** The type switch of [Update]. A message whose type has no case, a
    [tickMsg] among them, leaves the model alone and adds no command. *)
Definition dispatch (fs : FS) (m : model) (msg : Msg) : model * list Cmd :=
  match msg with
  | WindowSizeMsg w h =>
      (mkModel (textInput m) (status m) (videoQueue m) (history m)
         (selectedIndex m) w h (hexStream m) (downloadFormat m), [])
  | titleFetchedMsg url title err =>
      let '(st, queue) := apply_title url title err (status m) (videoQueue m) in
      (mkModel (textInput m) st queue (history m) (selectedIndex m)
         (windowWidth m) (windowHeight m) (hexStream m) (downloadFormat m), [])
  | KeyMsg key => key_pressed m key
  | setFormatMsg format =>
      let '(sh, queue) :=
        drain_queue fs (mkShared (status m) (history m) (selectedIndex m))
          (videoQueue m) in
      (mkModel (textInput m) (sh_status sh) queue (sh_history sh)
         (sh_selectedIndex sh) (windowWidth m) (windowHeight m)
         (formattedHexStream 7 6) format, [tickCmd])
  | tickMsg => (m, [])
  | otherMsg => (m, [])
  end.

(** [Update]: the model and the batch of commands it returns. *)
Definition Update (fs : FS) (m : model) (msg : Msg) : model * list Cmd :=
  match msg with
  | KeyMsg key =>
      if String.eqb key "ctrl+c" || String.eqb key "esc" then (m, [Quit])
      else
        let '(m', cmds) := dispatch fs m msg in
        (mkModel (ti_Update (textInput m') msg) (status m') (videoQueue m')
           (history m') (selectedIndex m') (windowWidth m') (windowHeight m')
           (hexStream m') (downloadFormat m'), cmds)
  | _ =>
      let '(m', cmds) := dispatch fs m msg in
      (mkModel (ti_Update (textInput m') msg) (status m') (videoQueue m')
         (history m') (selectedIndex m') (windowWidth m') (windowHeight m')
         (hexStream m') (downloadFormat m'), cmds)
  end.

(** The record [View] shows in the preview box: [m.history[m.selectedIndex]]
    when the history is not empty. *)
Definition preview_info (m : model) : outcome (option VideoInfo) :=
  if (0 <? length (history m))%nat then
    if (selectedIndex m <? 0)%Z then Panicked "index out of range"
    else match history m !! Z.to_nat (selectedIndex m) with
         | Some info => Returned (Some info)
         | None => Panicked "index out of range"
         end
  else Returned None.

(** The message [fetchTitleCmd] produces: the result of the lookup, or the
    timeout message when the timer fires first. *)
Definition run_fetchTitleCmd (url : string) (timer_first : bool) : Msg :=
  if timer_first then titleFetchedMsg url "" (Some "timeout fetching title")
  else
    let r := FetchTitleAsync url in
    titleFetchedMsg (tf_URL r) (tf_Title r) (tf_Error r).



(** An entry lives between its producer, which offers messages to the
    channel, and the loop of [Update], which drains it; the two take turns
    in any order. *)
Inductive activity : Type :=
| Offer (m : ProgressFractionMsg)
| Drain.

Definition act (fs : FS) (a : activity) (st : shared * VideoDownload)
    : outcome (shared * VideoDownload) :=
  let '(sh, vd) := st in
  match a with
  | Offer m =>
      match try_send (ProgressCh vd) m with
      | Returned ch =>
          Returned (sh, mkVideoDownload (vd_URL vd) (Name vd) (Percent vd)
                          (Log vd) ch (Done vd) (TitleFetched vd))
      | Panicked why => Panicked why
      end
  | Drain => Returned (drain_entry fs sh vd)
  end.

Fixpoint run_entry (fs : FS) (acts : list activity)
    (st : shared * VideoDownload) : outcome (shared * VideoDownload) :=
  match acts with
  | [] => Returned st
  | a :: acts' =>
      match act fs a st with
      | Returned st' => run_entry fs acts' st'
      | Panicked why => Panicked why
      end
  end.

(** What happens to a running program: the runtime delivers a message to
    [Update], with the files as they are at that moment, or the producer
    of an entry offers a message to the channel of the entry. *)
Inductive event : Type :=
| Deliver (fs : FS) (msg : Msg)
| Produce (entry : nat) (m : ProgressFractionMsg).

Definition offer (q : list VideoDownload) (entry : nat)
    (pm : ProgressFractionMsg) : outcome (list VideoDownload) :=
  match q !! entry with
  | None => Returned q
  | Some vd =>
      match try_send (ProgressCh vd) pm with
      | Returned ch =>
          Returned (<[entry := mkVideoDownload (vd_URL vd) (Name vd) (Percent vd)
                                 (Log vd) ch (Done vd) (TitleFetched vd)]> q)
      | Panicked why => Panicked why
      end
  end.

Definition advance (ev : event) (m : model) : outcome model :=
  match ev with
  | Deliver fs msg => Returned (Update fs m msg).1
  | Produce entry pm =>
      match offer (videoQueue m) entry pm with
      | Returned q =>
          Returned (mkModel (textInput m) (status m) q (history m)
                      (selectedIndex m) (windowWidth m) (windowHeight m)
                      (hexStream m) (downloadFormat m))
      | Panicked why => Panicked why
      end
  end.

Fixpoint run (evs : list event) (m : model) : outcome model :=
  match evs with
  | [] => Returned m
  | ev :: evs' =>
      match advance ev m with
      | Returned m' => run evs' m'
      | Panicked why => Panicked why
      end
  end.

(** No channel of the queue is closed, and the selection points into the
    history when there is one. *)
Definition view_safe (m : model) : Prop :=
  Forall (fun vd => closed (ProgressCh vd) = false) (videoQueue m) /\
  (history m = [] \/ (0 <= selectedIndex m < Z.of_nat (length (history m)))%Z).

(** The messages that reach [Update] in a running program: those of the
    terminal, of [tickCmd] and of [fetchTitleCmd]. No command of the
    repository builds a [setFormatMsg]. *)
Definition arrives (ev : event) : bool :=
  match ev with
  | Deliver _ (setFormatMsg _) => false
  | _ => true
  end.

(** An entry on which no message of its producer has had an effect. *)
Definition untouched (vd : VideoDownload) : Prop :=
  Percent vd = 0%Q /\ Log vd = [] /\ Done vd = false.

End WithWidgets.

End Tui.

(** ** The decorative hex text of tui/app.go *)

Module Hex.
Import GoStr Downloader.

Definition hexChars : string := "0123456789ABCDEF".

(** [s[i]]: out of range it panics. *)
Definition byte_at (s : string) (i : nat) : outcome ascii :=
  match String.get i s with
  | Some c => Returned c
  | None => Panicked "index out of range"
  end.

(** [rand.Intn(n)] for the raw number the generator yields next; it
    panics unless [n] is positive. *)
Definition Intn (raw n : nat) : outcome nat :=
  if (n =? 0)%nat then Panicked "invalid argument to Intn"
  else Returned (raw mod n).

(** [hexChars[rand.Intn(len(hexChars))]] *)
Definition hex_digit (raw : nat) : outcome ascii :=
  match Intn raw (len hexChars) with
  | Returned i => byte_at hexChars i
  | Panicked why => Panicked why
  end.

(** The loop of [randomHexString] over a slice of [n] bytes: the
    generator yields [draws k], [draws (k + 1)], ... *)
Fixpoint fill_hex (n : nat) (draws : nat -> nat) (k : nat) : outcome string :=
  match n with
  | 0 => Returned ""
  | S n' =>
      match hex_digit (draws k) with
      | Returned c =>
          match fill_hex n' draws (S k) with
          | Returned s => Returned (String c s)
          | Panicked why => Panicked why
          end
      | Panicked why => Panicked why
      end
  end.

(** [randomHexString(length)]: [make([]byte, length)] panics on a
    negative length; the allocation of any other length is taken to
    succeed. *)
Definition randomHexString (length : Z) (draws : nat -> nat) (k : nat)
    : outcome string :=
  if (length <? 0)%Z then Panicked "makeslice: len out of range"
  else fill_hex (Z.to_nat length) draws k.

(** [strings.Join(parts, sep)] *)
Fixpoint Join (parts : list string) (sep : string) : string :=
  match parts with
  | [] => ""
  | [p] => p
  | p :: rest => p +:+ sep +:+ Join rest sep
  end.

(** The inner loop of [formattedHexStream]: the pairs of one line. *)
Fixpoint line_pairs (pairs : nat) (draws : nat -> nat) (k : nat)
    : outcome (list string) :=
  match pairs with
  | 0 => Returned []
  | S pairs' =>
      match hex_digit (draws k), hex_digit (draws (S k)) with
      | Returned a, Returned b =>
          match line_pairs pairs' draws (S (S k)) with
          | Returned ps => Returned (String a (String b "") :: ps)
          | Panicked why => Panicked why
          end
      | Panicked why, _ => Panicked why
      | _, Panicked why => Panicked why
      end
  end.

(** The outer loop: the lines, each joined by spaces. *)
Fixpoint hex_lines (lines pairsPerLine : nat) (draws : nat -> nat) (k : nat)
    : outcome (list string) :=
  match lines with
  | 0 => Returned []
  | S lines' =>
      match line_pairs pairsPerLine draws k with
      | Returned ps =>
          match hex_lines lines' pairsPerLine draws (k + 2 * pairsPerLine) with
          | Returned ls => Returned (Join ps " " :: ls)
          | Panicked why => Panicked why
          end
      | Panicked why => Panicked why
      end
  end.

(** [formattedHexStream(lines, pairsPerLine)] *)
Definition formattedHexStream (lines pairsPerLine : nat) (draws : nat -> nat)
    (k : nat) : outcome string :=
  match hex_lines lines pairsPerLine draws k with
  | Returned ls => Returned (Join ls (String "010" ""))
  | Panicked why => Panicked why
  end.

Definition is_hex (c : ascii) : bool :=
  in_range 48 57 c || in_range 65 70 c.

End Hex.

(** ** The vocabulary of the properties *)

Module Pattern.
Import GoStr Downloader.

(** A numeral of the pattern: digits, and maybe a dot and digits. *)
Definition numeral (ip : string) (fp : option string) : string :=
  match fp with
  | Some f => ip +:+ "." +:+ f
  | None => ip
  end.

Definition digits (s : string) : Prop := s <> "" /\ all is_digit s = true.

(** The ten digits and what they stand for. *)
Definition digit_of (c : ascii) : Z :=
  match c with
  | "0"%char => 0 | "1"%char => 1 | "2"%char => 2 | "3"%char => 3
  | "4"%char => 4 | "5"%char => 5 | "6"%char => 6 | "7"%char => 7
  | "8"%char => 8 | "9"%char => 9
  | _ => 0
  end%Z.

(** The natural number a string of digits denotes in base ten: each digit
    counts for its power of ten. *)
Fixpoint decimal (s : string) : Z :=
  match s with
  | EmptyString => 0
  | String c s' => digit_of c * 10 ^ Z.of_nat (len s') + decimal s'
  end.

(** The number a numeral denotes: the integer part, and the fractional
    part over the power of ten of its length. *)
Definition numeral_value (ip : string) (fp : option string) : Q :=
  inject_Z (decimal ip) +
  match fp with
  | Some f => Qmake (decimal f) (Z.to_pos (10 ^ Z.of_nat (len f)))
  | None => 0
  end.

(** [line] holds, right after [pre], the marker [[download]], white space
    [ws], the numeral and a percent sign. *)
Definition matches_after (line pre ws ip : string) (fp : option string)
    (post : string) : Prop :=
  line = pre +:+ "[download]" +:+ ws +:+ numeral ip fp +:+ "%" +:+ post /\
  ws <> "" /\ all is_space ws = true /\
  digits ip /\
  match fp with Some f => digits f | None => True end.

(** No match of the pattern starts before the end of [pre]. *)
Definition leftmost (line pre : string) : Prop :=
  forall (pre' ws ip : string) (fp : option string) (post : string),
    matches_after line pre' ws ip fp post -> (len pre <= len pre')%nat.

(** The pattern matches nowhere in [line]. *)
Definition no_match (line : string) : Prop :=
  forall (pre ws ip : string) (fp : option string) (post : string),
    ~ matches_after line pre ws ip fp post.

Definition occurs (sub s : string) : Prop :=
  exists a b : string, s = a +:+ sub +:+ b.

(** The phrases of the stage-based fallback. *)
Definition milestone_phrases : list string :=
  ["extracting"; "downloading webpage"; "downloading video";
   "downloading audio"; "merging"; "post-processing"; "finished"; "completed"].

(** None of the fallback rules applies to the lower-cased line [l]. *)
Definition no_milestone (l : string) : Prop :=
  (forall w : string, In w milestone_phrases -> ~ occurs w l) /\
  ~ (occurs "[download]" l /\ occurs "%" l).

(** URLs of the shapes [extractURLName] knows. *)

(** The character [x] does not occur in [s]. *)
Definition lacks (x : ascii) (s : string) : Prop :=
  all (fun c => negb (Ascii.eqb c x)) s = true.

(** [s] is empty or starts with [x]. *)
Definition opens_with (x : ascii) (s : string) : Prop :=
  match s with
  | EmptyString => True
  | String c _ => c = x
  end.

(** [u] is [url] without its scheme, if it has one. *)
Definition without_scheme (url u : string) : Prop :=
  (exists scheme : string, url = scheme +:+ "://" +:+ u /\ lacks ":" scheme)
  \/ (url = u /\ ~ occurs "://" u).

(** [.../youtube.com/watch?v=ID], maybe followed by further parameters. *)
Definition watch_url (url id : string) : Prop :=
  exists u host rest : string,
    without_scheme url u /\
    u = host +:+ "youtube.com/watch?v=" +:+ id +:+ rest /\
    lacks "=" host /\ lacks "&" id /\ opens_with "&" rest.

(** [.../youtu.be/ID], maybe followed by a query. *)
Definition short_url (url id : string) : Prop :=
  exists u host rest : string,
    without_scheme url u /\
    u = host +:+ "youtu.be/" +:+ id +:+ rest /\
    lacks "/" host /\ lacks "?" id /\ opens_with "?" rest /\
    ~ occurs "youtube.com/watch?v=" u.

Definition known_shape (url id : string) : Prop :=
  watch_url url id \/ short_url url id.

End Pattern.

(** ** The vocabulary of the history store *)

Module Store.
Import Downloader.

Section WithJson.

Context {json : Json}.

(** [json.Unmarshal] returns an error on [data]: the text is no JSON, or
    it is JSON that does not fit a list of records. *)
Definition unparseable (data : string) : Prop :=
  json_Unmarshal_infos data = Invalid \/
  exists l : list VideoInfo, json_Unmarshal_infos data = Decoded l true.

(** Decoding [data] fails and leaves nothing in the slice. *)
Definition nothing_decoded (data : string) : Prop :=
  json_Unmarshal_infos data = Invalid \/
  json_Unmarshal_infos data = Decoded [] true.

(** The file of the store is missing, or holds nothing that decodes. *)
Definition missing_or_nothing_decoded (fs : FS) (path : string) : Prop :=
  fs !! path = None \/
  exists data : string, fs !! path = Some data /\ nothing_decoded data.

(** The file of the store holds the empty collection. *)
Definition empty_store (fs : FS) (path : string) : Prop :=
  exists data : string,
    fs !! path = Some data /\ json_Unmarshal_infos data = Decoded [] false.

End WithJson.

End Store.

(** ** Instances for running the definitions *)

Module Examples.
Import GoStr Downloader Tui.

Definition is_ascii_space (c : ascii) : bool :=
  match nat_of_ascii c with
  | 9 | 10 | 11 | 12 | 13 | 32 => true
  | _ => false
  end.

Fixpoint trim_left (s : string) : string :=
  match s with
  | String c s' => if is_ascii_space c then trim_left s' else s
  | EmptyString => EmptyString
  end.

Fixpoint trim_right (s : string) : string :=
  match s with
  | String c s' =>
      let r := trim_right s' in
      if is_empty r && is_ascii_space c then EmptyString else String c r
  | EmptyString => EmptyString
  end.

(** Package [strings] restricted to ASCII text. *)
Definition ascii_strings : Strings :=
  {| ToLower := ascii_ToLower;
     ToUpper := ascii_ToUpper;
     TrimSpace := fun s => trim_right (trim_left s) |}.

(** A machine without the yt-dlp binary. *)
Definition no_binary : System :=
  {| os_start := fun _ =>
       mkProcess None None (Some "exec: yt-dlp: executable file not found in $PATH")
         [] None [] None None (fun fs => fs);
     os_run := fun _ =>
       mkRun (Some "exec: yt-dlp: executable file not found in $PATH") "" |}.

(** A machine on which the download succeeds and the metadata query
    prints the object [{}]. *)
Definition untitled_metadata : System :=
  {| os_start := fun _ =>
       mkProcess None None None [] None ["[download] 100% of 3.00MiB"] None None
         (fun fs => fs);
     os_run := fun _ => mkRun None "{}" |}.

(** A decoder that knows the document [{}]. *)
Definition empty_object_json : Json :=
  {| json_Unmarshal_object := fun data =>
       if String.eqb data "{}" then Some ∅ else None;
     json_Unmarshal_infos := fun _ => Invalid;
     json_MarshalIndent := fun _ => None |}.

Definition record1 : VideoInfo :=
  mkVideoInfo "https://youtu.be/abc123" "First" 61 "1920x1080" 1920 1080 30
    (25 # 10) (128 # 1) (2628 # 10) 3145728 1700000000.

Definition record2 : VideoInfo :=
  mkVideoInfo "https://youtu.be/def456" "Second" 0 "" 0 0 0 0 0 0 0 1700000100.

(** A codec that knows the documents of the histories [[record1]] and
    [[record1; record2]], named by their length, and the empty array. *)
Definition two_document_json : Json :=
  {| json_Unmarshal_object := fun _ => None;
     json_Unmarshal_infos := fun data =>
       if String.eqb data "[]" then Decoded [] false
       else if String.eqb data "1" then Decoded [record1] false
       else if String.eqb data "2" then Decoded [record1; record2] false
       else Invalid;
     json_MarshalIndent := fun infos =>
       match length infos with
       | 1 => Some "1"
       | 2 => Some "2"
       | _ => None
       end |}.

Definition digit_char (d : Z) : ascii := ascii_of_nat (48 + Z.to_nat d).

(** The decimal numeral of a natural number below [10 ^ fuel]. *)
Fixpoint decimal (fuel : nat) (n : Z) : string :=
  match fuel with
  | 0 => ""
  | S fuel' =>
      (if (n <? 10)%Z then "" else decimal fuel' (n / 10))
      +:+ String (digit_char (n mod 10)) ""
  end.

(** A number with one digit after the point, rounded half to even. *)
Definition fmt_tenths (x : Q) : string :=
  let t := (x * 10)%Q in
  let lo := (Qnum t / Z.pos (Qden t))%Z in
  let r := (2 * (Qnum t mod Z.pos (Qden t)))%Z in
  let n := if (Z.pos (Qden t) <? r)%Z then (lo + 1)%Z
           else if (r =? Z.pos (Qden t))%Z && Z.odd lo then (lo + 1)%Z
           else lo in
  (if (n <? 0)%Z then "-" else "")
  +:+ decimal 400 (Z.abs n / 10) +:+ "." +:+ decimal 1 (Z.abs n mod 10).

Fixpoint join (sep : string) (parts : list string) : string :=
  match parts with
  | [] => ""
  | [p] => p
  | p :: rest => p +:+ sep +:+ join sep rest
  end.

(** A text input that holds a string and takes printable keys; the hex
    stream as drawn when every draw is 0. *)
Definition plain_widgets : Widgets :=
  {| textinput := string;
     ti_Value := fun t => t;
     ti_SetValue := fun v _ => v;
     ti_Update := fun t msg =>
       match msg with
       | KeyMsg key => if (len key =? 1)%nat then t +:+ key else t
       | _ => t
       end;
     fmt_1f := fmt_tenths;
     formattedHexStream := fun lines pairs =>
       join (String "010" "") (replicate lines (join " " (replicate pairs "00"))) |}.

(** A model whose queue holds the fresh entry of one URL. *)
Definition queued (url : string) : @model plain_widgets :=
  @mkModel plain_widgets "" "✔ VARIANT SEQUENCE ACCEPTED • INITIATING CASE ANALYSIS"
    [new_download url] [] 0 120 40 "0000000000000000" "mp4".

(** A machine on which the download is started and exits with an error. *)
Definition failing_download : System :=
  {| os_start := fun _ =>
       mkProcess None None None
         ["ERROR: unable to download video data"] None
         ["[youtube] Extracting URL"; "   "; "[download]  12.5% of 3.00MiB"] None
         (Some "exit status 1") (fun fs => fs);
     os_run := fun _ => mkRun (Some "exit status 1") "" |}.

Definition dq : string := String (ascii_of_nat 34) "".

(** The document [{"title": "First"}]. *)
Definition titled_document : string :=
  "{" +:+ dq +:+ "title" +:+ dq +:+ ": " +:+ dq +:+ "First" +:+ dq +:+ "}".

(** A machine on which the download succeeds and the metadata query
    prints that document. *)
Definition titled_metadata : System :=
  {| os_start := fun _ =>
       mkProcess None None None [] None ["[download] 100% of 3.00MiB"] None None
         (fun fs => fs);
     os_run := fun _ => mkRun None titled_document |}.

(** A machine on which the download leaves the file [First.mp4] and the
    metadata query prints that document. *)
Definition writes_video : System :=
  {| os_start := fun _ =>
       mkProcess None None None [] None ["[download] 100% of 3.00MiB"] None None
         (fun fs => <["First.mp4" := "video"]> fs);
     os_run := fun _ => mkRun None titled_document |}.

(** A codec that decodes that document and writes histories as
    [two_document_json] does. *)
Definition titled_json : Json :=
  {| json_Unmarshal_object := fun data =>
       if String.eqb data titled_document
       then Some {[ "title" := JString "First" ]}
       else None;
     json_Unmarshal_infos := @json_Unmarshal_infos two_document_json;
     json_MarshalIndent := @json_MarshalIndent two_document_json |}.

(** A record with its URL alone, and the record of zero values. *)
Definition url_only : VideoInfo :=
  mkVideoInfo "https://youtu.be/abc123" "" 0 "" 0 0 0 0 0 0 0 0.

Definition blank : VideoInfo := mkVideoInfo "" "" 0 "" 0 0 0 0 0 0 0 0.

(** The document [[{"url": "https://youtu.be/abc123"}, {"url": 7}]]. *)
Definition mistyped_document : string :=
  "[{" +:+ dq +:+ "url" +:+ dq +:+ ": " +:+ dq +:+ "https://youtu.be/abc123" +:+ dq
  +:+ "}, {" +:+ dq +:+ "url" +:+ dq +:+ ": 7}]".

(** A codec on that document, as [encoding/json] reads it: the first
    element is decoded, the second keeps its zero values, and the type
    error of its URL is returned. It knows the empty array and writes the
    histories of one and of three records, named by their length. *)
Definition mistyped_json : Json :=
  {| json_Unmarshal_object := fun _ => None;
     json_Unmarshal_infos := fun data =>
       if String.eqb data "[]" then Decoded [] false
       else if String.eqb data mistyped_document then Decoded [url_only; blank] true
       else if String.eqb data "1" then Decoded [record2] false
       else if String.eqb data "3" then Decoded [url_only; blank; record2] false
       else Invalid;
     json_MarshalIndent := fun infos =>
       match length infos with
       | 1 => Some "1"
       | 3 => Some "3"
       | _ => None
       end |}.

(** A generator that counts. *)
Definition counting : nat -> nat := fun k => (7 * k + 3)%nat.

(** A machine that runs the two commands of the supervisor for
    [https://youtu.be/abc123] as [titled_metadata] does and fails every
    other command. *)
Definition other_commands_fail : System :=
  {| os_start := fun argv =>
       if bool_decide (argv = download_command "https://youtu.be/abc123")
       then @os_start titled_metadata argv else @os_start no_binary argv;
     os_run := fun argv =>
       if bool_decide (argv = metadata_command "https://youtu.be/abc123")
       then @os_run titled_metadata argv else @os_run no_binary argv |}.

End Examples.

(* ===================================================================== *)
(** * Part II: properties *)
(* ===================================================================== *)

Import GoStr Downloader Tui Pattern Store.

(** ** The reconciliation step *)

Section Reconciliation.

Context {strs : Strings} {sys : System} {json : Json} {wid : Widgets}.

(** C1. [Update] has no case for [tickMsg]: on a tick no channel is
    drained, every entry stays as it was, and no further tick is
    scheduled. Only the text input sees the message. *)
Theorem Update_tick_drains_nothing : forall (fs : FS) (m : model),
  Update fs m tickMsg =
  (mkModel (ti_Update (textInput m) tickMsg) (status m) (videoQueue m)
     (history m) (selectedIndex m) (windowWidth m) (windowHeight m)
     (hexStream m) (downloadFormat m),
   []).
Proof. intros fs [ti st q h sel w hh hex fmt]; reflexivity. Qed.

(** The drain loop and the next tick sit in the case of [setFormatMsg]. *)
Lemma Update_setFormat_drains : forall (fs : FS) (m : model) (format : string),
  let r := drain_queue fs (mkShared (status m) (history m) (selectedIndex m))
             (videoQueue m) in
  Update fs m (setFormatMsg format) =
  (mkModel (ti_Update (textInput m) (setFormatMsg format)) (sh_status r.1)
     r.2 (sh_history r.1) (sh_selectedIndex r.1) (windowWidth m)
     (windowHeight m) (formattedHexStream 7 6) format,
   [tickCmd]).
Proof.
  intros fs m format. unfold Update, dispatch. simpl.
  destruct (drain_queue _ _ _) as [sh q]. reflexivity.
Qed.

(** *** The end of a stream *)

Lemma try_send_open : forall (ch : chan) (m : ProgressFractionMsg),
  closed ch = false ->
  exists ch', try_send ch m = Returned ch' /\ closed ch' = false.
Proof.
  intros ch m Hopen. unfold try_send. rewrite Hopen.
  destruct (length (buf ch) <? cap ch)%nat; eexists; split; try reflexivity;
    simpl; assumption.
Qed.

Lemma drain_entry_open : forall (fs : FS) (sh : shared) (vd : VideoDownload),
  closed (ProgressCh vd) = false -> Done vd = false ->
  closed (ProgressCh (drain_entry fs sh vd).2) = false /\
  Done (drain_entry fs sh vd).2 = false.
Proof.
  intros fs sh vd Hopen Hdone. unfold drain_entry, try_recv.
  rewrite Hdone, Hopen.
  destruct (buf (ProgressCh vd)) as [|m rest]; simpl; auto.
Qed.

Lemma run_entry_open : forall (fs : FS) (acts : list activity)
    (sh : shared) (vd : VideoDownload),
  closed (ProgressCh vd) = false -> Done vd = false ->
  exists sh' vd', run_entry fs acts (sh, vd) = Returned (sh', vd') /\
                  closed (ProgressCh vd') = false /\ Done vd' = false.
Proof.
  intros fs acts. induction acts as [|a acts IH]; intros sh vd Hopen Hdone.
  - exists sh, vd. auto.
  - destruct a as [m|]; simpl.
    + destruct (try_send_open (ProgressCh vd) m Hopen) as (ch' & -> & Hopen').
      apply IH; assumption.
    + destruct (drain_entry_open fs sh vd Hopen Hdone) as [Hopen' Hdone'].
      destruct (drain_entry fs sh vd) as [sh1 vd1]. apply IH; assumption.
Qed.

(** C2. The channel of an entry is made open and nothing closes it, so
    whatever the producer offers, the end marker included, and however
    often the loop drains, the entry is never marked done. *)
Theorem entry_never_done : forall (fs : FS) (acts : list activity)
    (sh : shared) (url : string),
  exists sh' vd',
    run_entry fs acts (sh, new_download url) = Returned (sh', vd') /\
    closed (ProgressCh vd') = false /\ Done vd' = false.
Proof. intros. apply run_entry_open; reflexivity. Qed.

(** What draining the end marker does: the fraction becomes 1, the log
    and the completion flag stay. *)
Lemma drain_end_marker : forall (fs : FS) (sh : shared) (url : string),
  run_entry fs [Offer (mkProgress 1 ""); Drain] (sh, new_download url) =
  Returned (sh, mkVideoDownload url "◉ SCANNING TIMELINE..." 1 []
                  (make_chan 50) false false).
Proof. reflexivity. Qed.

End Reconciliation.

(** ** The download supervisor *)

Section Supervisor.

Context {strs : Strings} {sys : System} {json : Json}.

(** A failure to create the stderr pipe: one call, fraction 0. *)
Lemma stderr_pipe_failure_calls : forall (url err : string)
    (sched : list bool) (now : Z) (fs : FS),
  stderr_pipe_err (os_start (download_command url)) = Some err ->
  DownloadStreamWithProgress url sched now fs =
  ([mkProgress 0 ("❌ Error creating stderr pipe: " +:+ err)], Returned fs).
Proof.
  intros url err sched now fs H. unfold DownloadStreamWithProgress.
  rewrite H. reflexivity.
Qed.

(** A failure to create the stdout pipe: one call, fraction 0. *)
Lemma stdout_pipe_failure_calls : forall (url err : string)
    (sched : list bool) (now : Z) (fs : FS),
  stderr_pipe_err (os_start (download_command url)) = None ->
  stdout_pipe_err (os_start (download_command url)) = Some err ->
  DownloadStreamWithProgress url sched now fs =
  ([mkProgress 0 ("❌ Error creating stdout pipe: " +:+ err)], Returned fs).
Proof.
  intros url err sched now fs H1 H2. unfold DownloadStreamWithProgress.
  rewrite H1, H2. reflexivity.
Qed.

(** C3. When the subprocess cannot be started the supervisor makes one
    call, with fraction 0 and the error text, and returns: the call with
    the empty line, the end marker, is not made. *)
Theorem spawn_failure_calls : forall (url err : string)
    (sched : list bool) (now : Z) (fs : FS),
  stderr_pipe_err (os_start (download_command url)) = None ->
  stdout_pipe_err (os_start (download_command url)) = None ->
  start_err (os_start (download_command url)) = Some err ->
  DownloadStreamWithProgress url sched now fs =
  ([mkProgress 0 ("❌ Error starting download: " +:+ err)], Returned fs)
  /\ last (DownloadStreamWithProgress url sched now fs).1
     <> Some (mkProgress 1 "").
Proof.
  intros url err sched now fs H1 H2 H3. unfold DownloadStreamWithProgress.
  rewrite H1, H2, H3. split; [reflexivity|]. simpl. discriminate.
Qed.

(** Once the subprocess has started, a failed run is reported with
    fraction 1 and followed by the end marker. *)
Lemma failed_run_calls : forall (url err : string)
    (sched : list bool) (now : Z) (fs : FS),
  stderr_pipe_err (os_start (download_command url)) = None ->
  stdout_pipe_err (os_start (download_command url)) = None ->
  start_err (os_start (download_command url)) = None ->
  wait_err (os_start (download_command url)) = Some err ->
  exists readers,
    DownloadStreamWithProgress url sched now fs =
    (readers ++ [mkProgress 1 ("❌ Download failed: " +:+ err); mkProgress 1 ""],
     Returned (files_after (os_start (download_command url)) fs)).
Proof.
  intros url err sched now fs H1 H2 H3 H4. unfold DownloadStreamWithProgress.
  rewrite H1, H2, H3, H4. eexists. reflexivity.
Qed.

(** X23. A started subprocess whose supervisor returns ends with the
    marker: the last call has fraction 1 and the empty line. *)
Lemma started_run_ends_with_marker : forall (url : string)
    (sched : list bool) (now : Z) (fs fs' : FS) (calls : list ProgressFractionMsg),
  stderr_pipe_err (os_start (download_command url)) = None ->
  stdout_pipe_err (os_start (download_command url)) = None ->
  start_err (os_start (download_command url)) = None ->
  DownloadStreamWithProgress url sched now fs = (calls, Returned fs') ->
  last calls = Some (mkProgress 1 "").
Proof.
  intros url sched now fs fs' calls H1 H2 H3. unfold DownloadStreamWithProgress.
  rewrite H1, H2, H3.
  destruct (wait_err _).
  - intros [= <- _]. rewrite last_app. reflexivity.
  - destruct (saveVideoInfo _ _ _ _); intros [= <- Hfs]; try discriminate.
    rewrite last_app. reflexivity.
Qed.

(** An assertion to [string] on anything but a string panics. *)
Lemma assert_string_panics : forall v : option json_value,
  as_string v = None ->
  assert_string v = Panicked "interface conversion: interface {} is not string".
Proof. intros [[]|] H; simpl in *; try reflexivity; discriminate. Qed.

(** C4. [saveVideoInfo] asserts that the title is a string without the
    comma-ok form: when the metadata record has no title, or a title that
    is not a string, the goroutine panics. *)
Theorem saveVideoInfo_panics_without_title : forall (url path : string)
    (now : Z) (fs : FS) (raw : gmap string json_value),
  run_err (os_run (metadata_command url)) = None ->
  json_Unmarshal_object (run_stdout (os_run (metadata_command url))) = Some raw ->
  as_string (raw !! "title") = None ->
  saveVideoInfo url path now fs =
  Panicked "interface conversion: interface {} is not string".
Proof.
  intros url path now fs raw Hrun Hraw Htitle. unfold saveVideoInfo.
  rewrite Hrun, Hraw, (assert_string_panics _ Htitle). reflexivity.
Qed.

(** After a successful download such a record ends the supervisor before
    the end marker. *)
Lemma supervisor_panics_without_title : forall (url : string)
    (sched : list bool) (now : Z) (fs : FS) (raw : gmap string json_value),
  stderr_pipe_err (os_start (download_command url)) = None ->
  stdout_pipe_err (os_start (download_command url)) = None ->
  start_err (os_start (download_command url)) = None ->
  wait_err (os_start (download_command url)) = None ->
  run_err (os_run (metadata_command url)) = None ->
  json_Unmarshal_object (run_stdout (os_run (metadata_command url))) = Some raw ->
  as_string (raw !! "title") = None ->
  (DownloadStreamWithProgress url sched now fs).2 =
  Panicked "interface conversion: interface {} is not string".
Proof.
  intros url sched now fs raw H1 H2 H3 H4 Hrun Hraw Htitle.
  unfold DownloadStreamWithProgress, saveVideoInfo.
  rewrite H1, H2, H3, H4, Hrun, Hraw, (assert_string_panics _ Htitle).
  reflexivity.
Qed.

End Supervisor.

Lemma spawn_failure_calls_witness :
  @DownloadStreamWithProgress Examples.ascii_strings Examples.no_binary
    Examples.empty_object_json "https://youtu.be/abc123?t=5" [] 0 ∅ =
  ([mkProgress 0 "❌ Error starting download: exec: yt-dlp: executable file not found in $PATH"],
   Returned ∅)
  /\ last (@DownloadStreamWithProgress Examples.ascii_strings Examples.no_binary
             Examples.empty_object_json "https://youtu.be/abc123?t=5" [] 0 ∅).1
     <> Some (mkProgress 1 "").
Proof.
  apply (@spawn_failure_calls Examples.ascii_strings Examples.no_binary
           Examples.empty_object_json); reflexivity.
Defined.

Lemma saveVideoInfo_panics_without_title_witness :
  @saveVideoInfo Examples.untitled_metadata Examples.empty_object_json
    "https://youtu.be/abc123" "downloads.json" 0 ∅ =
  Panicked "interface conversion: interface {} is not string".
Proof.
  apply (@saveVideoInfo_panics_without_title Examples.untitled_metadata
           Examples.empty_object_json _ _ _ _ ∅); reflexivity.
Defined.

(** ** The progress queue *)

Lemma deliver_open : forall (evs : list ProgressFractionMsg) (ch : chan),
  closed ch = false -> (length (buf ch) <= cap ch)%nat ->
  deliver ch evs =
  Returned {| buf := take (cap ch) (buf ch ++ evs); cap := cap ch; closed := false |}.
Proof.
  induction evs as [|m evs IH]; intros [b c cl] Hopen Hlen; simpl in *; subst cl.
  - rewrite app_nil_r, take_ge by lia. reflexivity.
  - unfold try_send; simpl.
    destruct (Nat.ltb_spec (length b) c) as [Hlt|Hge].
    + rewrite IH; simpl; [|reflexivity|rewrite length_app; simpl; lia].
      rewrite <- app_assoc. reflexivity.
    + rewrite IH; simpl; [|reflexivity|lia].
      rewrite !take_app_le by lia. reflexivity.
Qed.

(** C8. Offering to the queue of an entry never waits and never fails:
    of the messages offered before any drain the first 50 are kept, in
    order, and once 50 are held every further one is dropped. *)
Theorem full_queue_drops_newest : forall (url : string)
    (evs : list ProgressFractionMsg),
  exists ch : chan,
    deliver (ProgressCh (new_download url)) evs = Returned ch /\
    buf ch = take 50 evs /\
    closed ch = false /\
    (length (buf ch) <= 50)%nat /\
    (forall m : ProgressFractionMsg,
        (50 <= length evs)%nat -> try_send ch m = Returned ch).
Proof.
  intros url evs. eexists. split.
  - apply deliver_open; simpl; [reflexivity|lia].
  - simpl. repeat split.
    + rewrite length_take. lia.
    + intros m Hlen. unfold try_send. simpl.
      rewrite length_take. replace (50 `min` length evs)%nat with 50%nat by lia.
      reflexivity.
Qed.

(** What the loop can take from a queue is its content, oldest first. *)
Lemma try_recv_head : forall (ch : chan) (m : ProgressFractionMsg) (ch' : chan),
  try_recv ch = Received m ch' -> buf ch = m :: buf ch'.
Proof.
  intros [b c cl] m ch'. unfold try_recv; simpl.
  destruct b as [|x rest]; [destruct cl; discriminate|].
  intros [= -> <-]. reflexivity.
Qed.

(** ** The output format *)

Section Format.

Context {strs : Strings} {sys : System} {json : Json}.

(** X24. The supervisor asks the system for two commands only, both
    fixed up to the URL: what every other command would do has no
    influence on its calls or on the files. *)
Lemma supervisor_reads_its_commands : forall (sys' : System) (url : string)
    (sched : list bool) (now : Z) (fs : FS),
  @os_start sys' (download_command url) = @os_start sys (download_command url) ->
  @os_run sys' (metadata_command url) = @os_run sys (metadata_command url) ->
  @DownloadStreamWithProgress strs sys' json url sched now fs =
  @DownloadStreamWithProgress strs sys json url sched now fs.
Proof.
  intros sys' url sched now fs Hstart Hrun.
  unfold DownloadStreamWithProgress, saveVideoInfo. rewrite Hstart, Hrun.
  reflexivity.
Qed.


End Format.


(** ** Go strings: facts *)

#[local] Arguments String.append !s1 s2 / : simpl nomatch.

Lemma append_empty_r : forall s : string, s +:+ "" = s.
Proof. induction s as [|c s IH]; simpl; [reflexivity|rewrite IH; reflexivity]. Qed.

Lemma append_assoc : forall a b c : string, (a +:+ b) +:+ c = a +:+ b +:+ c.
Proof. induction a as [|x a IH]; intros; simpl; [reflexivity|rewrite IH; reflexivity]. Qed.

Lemma len_append : forall a b : string, len (a +:+ b) = (len a + len b)%nat.
Proof. induction a as [|x a IH]; intros; simpl; [reflexivity|rewrite IH; reflexivity]. Qed.

Lemma from_append : forall a b : string, from (len a) (a +:+ b) = b.
Proof. induction a as [|x a IH]; intros; simpl; [destruct b; reflexivity|apply IH]. Qed.

Lemma upto_append : forall a b : string, upto (len a) (a +:+ b) = a.
Proof.
  induction a as [|x a IH]; intros; simpl; [reflexivity|rewrite IH; reflexivity].
Qed.

Lemma upto_from : forall (n : nat) (s : string), upto n s +:+ from n s = s.
Proof.
  induction n as [|n IH]; intros [|c s]; simpl; try reflexivity.
  rewrite IH. reflexivity.
Qed.

Lemma len_upto : forall (n : nat) (s : string),
  (n <= len s)%nat -> len (upto n s) = n.
Proof.
  induction n as [|n IH]; intros [|c s] H; simpl in *; try reflexivity; try lia.
  rewrite IH by lia. reflexivity.
Qed.

Lemma from_from : forall (n k : nat) (s : string),
  from n (from k s) = from (k + n) s.
Proof.
  intros n k. revert n. induction k as [|k IH]; intros n [|c s]; simpl;
    try reflexivity.
  - destruct n; reflexivity.
  - apply IH.
Qed.

Lemma HasPrefix_append : forall p s : string, HasPrefix (p +:+ s) p = true.
Proof.
  induction p as [|c p IH]; intros; simpl; [reflexivity|].
  rewrite Ascii.eqb_refl. apply IH.
Qed.

Lemma HasPrefix_true : forall s p : string,
  HasPrefix s p = true -> s = p +:+ from (len p) s.
Proof.
  intros s p. revert s. induction p as [|c p IH]; intros s H; simpl in *.
  - destruct s; reflexivity.
  - destruct s as [|d s]; [discriminate|].
    destruct (Ascii.eqb_spec c d) as [->|]; [|discriminate].
    rewrite <- IH by assumption. reflexivity.
Qed.

Lemma span_split : forall (p : ascii -> bool) (s a b : string),
  span p s = (a, b) ->
  s = a +:+ b /\ all p a = true /\
  match b with String c _ => p c = false | EmptyString => True end.
Proof.
  intros p. induction s as [|c s IH]; intros a b H; simpl in H.
  - injection H as <- <-. auto.
  - destruct (p c) eqn:Hc.
    + destruct (span p s) as [a' b'] eqn:Hs. injection H as <- <-.
      destruct (IH a' b' eq_refl) as (-> & Ha & Hb). simpl. rewrite Hc. auto.
    + injection H as <- <-. simpl. rewrite Hc. auto.
Qed.

Lemma span_append : forall (p : ascii -> bool) (a b : string),
  all p a = true ->
  match b with String c _ => p c = false | EmptyString => True end ->
  span p (a +:+ b) = (a, b).
Proof.
  intros p. induction a as [|c a IH]; intros b Ha Hb; simpl in *.
  - destruct b as [|c b]; [reflexivity|]. simpl. rewrite Hb. reflexivity.
  - apply andb_true_iff in Ha as [Hc Ha]. rewrite Hc, (IH b Ha Hb). reflexivity.
Qed.

Lemma is_empty_true : forall s : string, is_empty s = true <-> s = "".
Proof. intros [|c s]; simpl; split; intros; congruence. Qed.

Lemma is_empty_false : forall s : string, is_empty s = false <-> s <> "".
Proof. intros [|c s]; simpl; split; intros; congruence. Qed.

(** [sub] occurs in [s]. *)
Lemma Index_Some_split : forall (sub s : string) (i : nat),
  Index s sub = Some i ->
  s = upto i s +:+ sub +:+ from (i + len sub) s /\ (i <= len s)%nat.
Proof.
  intros sub. induction s as [|c s IH]; intros i H.
  - simpl in H. destruct (HasPrefix "" sub) eqn:Hp; [|discriminate].
    injection H as <-. simpl. split; [|lia].
    apply HasPrefix_true in Hp. exact Hp.
  - cbn [Index] in H. destruct (HasPrefix (String c s) sub) eqn:Hp.
    + injection H as <-. simpl. split; [|lia]. apply HasPrefix_true in Hp.
      exact Hp.
    + destruct (Index s sub) as [j|] eqn:Hj; [|discriminate].
      injection H as <-. destruct (IH j eq_refl) as [Hs Hle]. simpl.
      split; [|lia]. rewrite <- Hs. reflexivity.
Qed.

Lemma Index_Some_first : forall (sub s : string) (i j : nat),
  Index s sub = Some i -> (j < i)%nat -> HasPrefix (from j s) sub = false.
Proof.
  intros sub. induction s as [|c s IH]; intros i j H Hj.
  - simpl in H. destruct (HasPrefix "" sub); [|discriminate].
    injection H as <-. lia.
  - cbn [Index] in H. destruct (HasPrefix (String c s) sub) eqn:Hp.
    + injection H as <-. lia.
    + destruct (Index s sub) as [k|] eqn:Hk; [|discriminate].
      injection H as <-. destruct j as [|j]; simpl; [exact Hp|].
      apply (IH k); [reflexivity|lia].
Qed.

Lemma Index_None_nowhere : forall (sub s : string) (j : nat),
  Index s sub = None -> HasPrefix (from j s) sub = false.
Proof.
  intros sub. induction s as [|c s IH]; intros j H.
  - simpl in H. destruct (HasPrefix "" sub) eqn:Hp; [discriminate|].
    destruct j; exact Hp.
  - cbn [Index] in H. destruct (HasPrefix (String c s) sub) eqn:Hp;
      [discriminate|].
    destruct (Index s sub) eqn:Hk; [discriminate|].
    destruct j as [|j]; simpl; [exact Hp|]. apply IH. reflexivity.
Qed.

Lemma Index_first_occurrence : forall (sub a b : string),
  (forall j : nat, (j < len a)%nat -> HasPrefix (from j (a +:+ sub +:+ b)) sub = false) ->
  Index (a +:+ sub +:+ b) sub = Some (len a).
Proof.
  intros sub. induction a as [|c a IH]; intros b H.
  - simpl. destruct (sub +:+ b) eqn:E; simpl;
      rewrite <- E, HasPrefix_append; reflexivity.
  - pose proof (H 0%nat ltac:(simpl; lia)) as H0. simpl in H0 |- *.
    rewrite H0, IH; [reflexivity|].
    intros j Hj. apply (H (S j)). simpl. lia.
Qed.

(** [Contains] decides occurrence. *)
Lemma Contains_true : forall s sub : string,
  Contains s sub = true <-> exists a b : string, s = a +:+ sub +:+ b.
Proof.
  intros s sub. unfold Contains. split.
  - destruct (Index s sub) as [i|] eqn:H; [|discriminate]. intros _.
    apply Index_Some_split in H as [H _]. eauto.
  - intros (a & b & ->). destruct (Index _ sub) eqn:H; [reflexivity|].
    pose proof (Index_None_nowhere sub _ (len a) H) as Hn.
    rewrite from_append, HasPrefix_append in Hn. discriminate.
Qed.

(** ** The progress parser *)

Lemma digit_not_space : forall c : ascii, is_digit c = true -> is_space c = false.
Proof.
  intros c. unfold is_digit, in_range, is_space.
  generalize (nat_of_ascii c) as n. intros n H.
  apply andb_true_iff in H as [H _]. apply Nat.leb_le in H.
  do 33 (destruct n as [|n]; [lia|]). reflexivity.
Qed.

Lemma digits_head : forall s : string,
  digits s -> exists (c : ascii) (s' : string), s = String c s' /\ is_digit c = true.
Proof.
  intros [|c s] [Hne Hall]; [congruence|]. simpl in Hall.
  apply andb_true_iff in Hall as [Hc _]. eauto.
Qed.

Lemma len_upto_le : forall (n : nat) (s : string), (len (upto n s) <= n)%nat.
Proof.
  induction n as [|n IH]; intros [|c s]; simpl; try lia.
  specialize (IH s). lia.
Qed.

(** The matcher accepts what the pattern describes. *)
Lemma match_here_complete : forall (s ws ip : string) (fp : option string)
    (post : string),
  matches_after s "" ws ip fp post ->
  match_here s =
  Some ("[download]" +:+ ws +:+ numeral ip fp +:+ "%", numeral ip fp).
Proof.
  intros s ws ip fp post (Hs & Hws & Hsp & Hip & Hfp).
  change ("" +:+ ?x) with x in Hs. subst s.
  unfold match_here. rewrite HasPrefix_append.
  change 10%nat with (len "[download]"). rewrite from_append.
  destruct (digits_head ip Hip) as (d & ip' & Eip & Hd).
  destruct Hip as [Hipne Hipall].
  rewrite (span_append is_space ws (numeral ip fp +:+ "%" +:+ post));
    [|assumption|destruct fp; simpl; rewrite Eip; simpl; apply digit_not_space, Hd].
  apply is_empty_false in Hws as ->.
  destruct fp as [f|]; simpl numeral.
  - destruct Hfp as [Hfne Hfall].
    rewrite !append_assoc.
    rewrite (span_append is_digit ip); [|assumption|reflexivity].
    apply is_empty_false in Hipne as ->. simpl.
    rewrite (span_append is_digit f); [|assumption|reflexivity].
    apply is_empty_false in Hfne as ->. simpl. rewrite ?append_assoc.
    reflexivity.
  - rewrite (span_append is_digit ip); [|assumption|reflexivity].
    apply is_empty_false in Hipne as ->. reflexivity.
Qed.

(** What the matcher accepts is described by the pattern. *)
Lemma match_here_sound : forall (s whole g : string),
  match_here s = Some (whole, g) ->
  exists (ws ip : string) (fp : option string) (post : string),
    matches_after s "" ws ip fp post /\ g = numeral ip fp.
Proof.
  intros s whole g. unfold match_here.
  destruct (HasPrefix s "[download]") eqn:Hp; [|discriminate].
  apply HasPrefix_true in Hp. change (len "[download]") with 10%nat in Hp.
  destruct (span is_space (from 10 s)) as [ws r1] eqn:Hspan1.
  apply span_split in Hspan1 as (Hr & Hws & _).
  destruct (is_empty ws) eqn:Ews; [discriminate|]. apply is_empty_false in Ews.
  destruct (span is_digit r1) as [ip r2] eqn:Hspan2.
  apply span_split in Hspan2 as (-> & Hip & _).
  destruct (is_empty ip) eqn:Eip; [discriminate|]. apply is_empty_false in Eip.
  destruct r2 as [|c r3]; [discriminate|].
  destruct (Ascii.eqb_spec c "%") as [->|_].
  - intros [= _ <-]. exists ws, ip, None, r3. split; [|reflexivity].
    repeat split; auto. rewrite Hr in Hp. exact Hp.
  - destruct (Ascii.eqb_spec c ".") as [->|_]; [|discriminate].
    destruct (span is_digit r3) as [f r4] eqn:Hspan3.
    apply span_split in Hspan3 as (-> & Hf & _).
    destruct (is_empty f) eqn:Ef; [discriminate|]. apply is_empty_false in Ef.
    destruct r4 as [|c' r5]; [discriminate|].
    destruct (Ascii.eqb_spec c' "%") as [->|_]; [|discriminate].
    intros [= _ <-]. exists ws, ip, (Some f), r5. split; [|reflexivity].
    repeat split; auto. rewrite Hr in Hp. simpl numeral.
    rewrite append_assoc. exact Hp.
Qed.

(** A match found further right in [line] is a match of [line]. *)
Lemma match_here_from : forall (line whole g : string) (j : nat),
  match_here (from j line) = Some (whole, g) ->
  exists (ws ip : string) (fp : option string) (post : string),
    matches_after line (upto j line) ws ip fp post.
Proof.
  intros line whole g j H.
  destruct (match_here_sound _ _ _ H) as (ws & ip & fp & post & Hm & _).
  exists ws, ip, fp, post. destruct Hm as (Hs & Hrest). split; [|exact Hrest].
  change ("" +:+ ?x) with x in Hs. rewrite <- Hs. symmetry. apply upto_from.
Qed.

Lemma FindStringSubmatch_unfold : forall line : string,
  FindStringSubmatch line =
  match match_here line with
  | Some (whole, g) => [whole; g]
  | None =>
      match line with
      | EmptyString => []
      | String _ line' => FindStringSubmatch line'
      end
  end.
Proof. intros [|c line]; reflexivity. Qed.

Lemma FindStringSubmatch_leftmost : forall (pre s whole g : string),
  (forall j : nat, (j < len pre)%nat -> match_here (from j (pre +:+ s)) = None) ->
  match_here s = Some (whole, g) ->
  FindStringSubmatch (pre +:+ s) = [whole; g].
Proof.
  induction pre as [|c pre IH]; intros s whole g Hnone Hs.
  - change ("" +:+ s) with s. rewrite FindStringSubmatch_unfold, Hs. reflexivity.
  - rewrite FindStringSubmatch_unfold.
    pose proof (Hnone 0%nat ltac:(simpl; lia)) as H0.
    change (from 0 ?x) with x in H0. rewrite H0.
    change (String c pre +:+ s) with (String c (pre +:+ s)).
    apply IH; [|exact Hs].
    intros j Hj. apply (Hnone (S j)). simpl. lia.
Qed.

Lemma FindStringSubmatch_none : forall line : string,
  (forall j : nat, match_here (from j line) = None) ->
  FindStringSubmatch line = [].
Proof.
  induction line as [|c line IH]; intros Hnone;
    pose proof (Hnone 0%nat) as H0; change (from 0 ?x) with x in H0;
    rewrite FindStringSubmatch_unfold, H0.
  - reflexivity.
  - apply IH. intros j. apply (Hnone (S j)).
Qed.

Lemma digits_value_shift : forall (s : string) (acc : Z),
  digits_value acc s = (acc * 10 ^ Z.of_nat (len s) + digits_value 0 s)%Z.
Proof.
  induction s as [|c s IH]; intros acc.
  - simpl. lia.
  - cbn [digits_value len]. rewrite IH, (IH (10 * 0 + digit_value c)%Z).
    rewrite Nat2Z.inj_succ, Z.pow_succ_r by lia. ring.
Qed.

Lemma digits_value_append : forall (a b : string) (acc : Z),
  digits_value acc (a +:+ b) = digits_value (digits_value acc a) b.
Proof. induction a as [|c a IH]; intros b acc; simpl; [reflexivity|apply IH]. Qed.

Lemma pow10_pos : forall n : nat, Z.pos (Z.to_pos (10 ^ Z.of_nat n)) = (10 ^ Z.of_nat n)%Z.
Proof. intros n. apply Z2Pos.id. apply Z.pow_pos_nonneg; lia. Qed.

(** On a digit the code of the character less 48 is what the digit
    stands for. *)
Lemma digit_value_digit_of : forall c : ascii,
  is_digit c = true -> digit_value c = digit_of c.
Proof.
  intros c. destruct c as [[] [] [] [] [] [] [] []];
    intros H; try discriminate H; reflexivity.
Qed.

(** The accumulating loop of the parser computes the number the digits
    denote. *)
Lemma digits_value_decimal : forall s : string,
  all is_digit s = true -> digits_value 0 s = decimal s.
Proof.
  induction s as [|c s IH]; intros H; [reflexivity|].
  cbn [all] in H. apply andb_true_iff in H as [Hc Hs].
  cbn [digits_value decimal]. rewrite digits_value_shift, (IH Hs).
  rewrite (digit_value_digit_of c Hc). lia.
Qed.

(** Rounding does not see how a rational is written. *)
Lemma round64_proper : forall q q' : Q,
  (q == q')%Q -> Float64.round64 q = Float64.round64 q'.
Proof.
  intros q q' H. unfold Float64.round64, Float64.nearest.
  rewrite (Qred_complete q q' H). reflexivity.
Qed.

(** [ParseFloat] on a numeral of the pattern: the number it denotes,
    rounded, unless that is out of range. *)
Lemma ParseFloat_numeral : forall (ip : string) (fp : option string),
  digits ip -> match fp with Some f => digits f | None => True end ->
  exists q : Q,
    ParseFloat (numeral ip fp) = in_float64_range q /\ (q == numeral_value ip fp)%Q.
Proof.
  intros ip fp [Hipne Hip] Hfp. unfold ParseFloat, numeral, numeral_value.
  rewrite <- (digits_value_decimal ip Hip).
  destruct fp as [f|].
  - destruct Hfp as [Hfne Hf]. rewrite <- (digits_value_decimal f Hf).
    rewrite (span_append is_digit ip); [|assumption|reflexivity].
    apply is_empty_false in Hipne as ->.
    change ("." +:+ f) with (String "." f). cbv iota beta.
    change (Ascii.eqb "." ".") with true.
    apply is_empty_false in Hfne as ->. rewrite Hf. simpl orb. cbv iota.
    eexists. split; [reflexivity|].
    rewrite digits_value_append, (digits_value_shift f).
    unfold Qeq, Qplus, inject_Z. simpl Qnum. simpl Qden.
    rewrite !Pos2Z.inj_mul, !pow10_pos. ring.
  - replace (span is_digit ip) with (span is_digit (ip +:+ ""))
      by (rewrite append_empty_r; reflexivity).
    rewrite (span_append is_digit ip ""); [|assumption|exact I].
    apply is_empty_false in Hipne as ->.
    eexists. split; [reflexivity|]. rewrite Qplus_0_r. reflexivity.
Qed.

Lemma in_float64_range_small : forall q : Q,
  (q <= 100)%Q -> in_float64_range q = Some (Float64.round64 q).
Proof.
  intros q Hq. unfold in_float64_range.
  destruct (Qle_bool float64_overflow q) eqn:H; [|reflexivity].
  apply Qle_bool_iff in H. exfalso.
  assert (Hlt : (100 < float64_overflow)%Q) by (vm_compute; reflexivity).
  apply (Qlt_irrefl 100). eapply Qlt_le_trans; [exact Hlt|].
  eapply Qle_trans; eassumption.
Qed.

Lemma matches_after_here : forall (line pre ws ip : string) (fp : option string)
    (post : string),
  matches_after line pre ws ip fp post ->
  matches_after (from (len pre) line) "" ws ip fp post.
Proof.
  intros line pre ws ip fp post (Hs & Hrest). split; [|exact Hrest].
  rewrite Hs, from_append. reflexivity.
Qed.

Lemma FindStringSubmatch_nil : forall (line : string) (j : nat),
  FindStringSubmatch line = [] -> match_here (from j line) = None.
Proof.
  induction line as [|c line IH]; intros j H;
    rewrite FindStringSubmatch_unfold in H.
  - destruct j; reflexivity.
  - destruct (match_here (String c line)) as [[w g]|] eqn:Hm; [discriminate|].
    destruct j as [|j]; [exact Hm|]. apply IH, H.
Qed.

(** The search finds nothing exactly when the pattern matches nowhere. *)
Lemma FindStringSubmatch_nil_iff : forall line : string,
  FindStringSubmatch line = [] <-> no_match line.
Proof.
  intros line. split.
  - intros H pre ws ip fp post Hm.
    apply matches_after_here, match_here_complete in Hm.
    rewrite (FindStringSubmatch_nil line (len pre) H) in Hm. discriminate.
  - intros Hno. apply FindStringSubmatch_none. intros j.
    destruct (match_here (from j line)) as [[w g]|] eqn:Hm; [|reflexivity].
    apply match_here_from in Hm as (ws & ip & fp & post & Hm).
    destruct (Hno _ _ _ _ _ Hm).
Qed.

Lemma Contains_false : forall s sub : string,
  ~ occurs sub s -> Contains s sub = false.
Proof.
  intros s sub H. destruct (Contains s sub) eqn:E; [|reflexivity].
  apply Contains_true in E. destruct (H E).
Qed.

Section Parser.

Context {strs : Strings}.

(** C5, as the code has it. When the leftmost match of the
    download-percentage pattern in a line holds a numeral of value [v]
    between 0 and 100, [parseProgress] returns the [float64] quotient by
    100 of the [float64] nearest to [v]; the line may hold any of the
    milestone phrases as well, they are not looked at. *)
Theorem parseProgress_percentage : forall (line pre ws ip : string)
    (fp : option string) (post : string),
  matches_after line pre ws ip fp post ->
  leftmost line pre ->
  (0 <= numeral_value ip fp <= 100)%Q ->
  parseProgress line =
  Float64.fdiv (Float64.round64 (numeral_value ip fp)) 100.
Proof.
  intros line pre ws ip fp post Hm Hleft [_ Hle].
  pose proof (match_here_complete _ _ _ _ _ (matches_after_here _ _ _ _ _ _ Hm))
    as Hhere.
  assert (Hfind : FindStringSubmatch line =
                  ["[download]" +:+ ws +:+ numeral ip fp +:+ "%"; numeral ip fp]).
  { assert (Hline : pre +:+ from (len pre) line = line).
    { destruct Hm as (Hs & _). rewrite Hs, from_append. reflexivity. }
    rewrite <- Hline. apply FindStringSubmatch_leftmost.
    - intros j Hj. rewrite Hline.
      destruct (match_here (from j line)) as [[w g]|] eqn:Hj'; [|reflexivity].
      apply match_here_from in Hj' as (ws' & ip' & fp' & post' & Hm').
      apply Hleft in Hm'. pose proof (len_upto_le j line). lia.
    - exact Hhere. }
  unfold parseProgress. rewrite Hfind.
  destruct Hm as (_ & _ & _ & Hip & Hfp).
  destruct (ParseFloat_numeral ip fp Hip Hfp) as (q & -> & Hq).
  rewrite in_float64_range_small by (rewrite Hq; exact Hle).
  rewrite (round64_proper _ _ Hq). reflexivity.
Qed.

End Parser.

Lemma parseProgress_percentage_witness :
  @parseProgress Examples.ascii_strings
    "[download]  42.5% of 3.00MiB, extracting finished" =
  Float64.fdiv (Float64.round64 (numeral_value "42" (Some "5"))) 100.
Proof.
  apply (@parseProgress_percentage Examples.ascii_strings
           "[download]  42.5% of 3.00MiB, extracting finished" "" "  " "42"
           (Some "5") " of 3.00MiB, extracting finished").
  - repeat split; try reflexivity; discriminate.
  - intros pre' ws' ip' fp' post' _. simpl. lia.
  - split; vm_compute; discriminate.
Defined.

(** C5, as stated, fails: the line [[download] 0.7%] matches with the
    value 7/10, and the parser returns neither 7/1000 nor the [float64]
    nearest to it, but the [float64] just below, which prints as
    0.006999999999999999. *)
Lemma percentage_is_rounded_twice :
  matches_after "[download] 0.7%" "" " " "0" (Some "7") ""
  /\ leftmost "[download] 0.7%" ""
  /\ (0 <= numeral_value "0" (Some "7") <= 100)%Q
  /\ @parseProgress Examples.ascii_strings "[download] 0.7%" =
     1008806316530991 # 144115188075855872
  /\ ~ (@parseProgress Examples.ascii_strings "[download] 0.7%"
        == numeral_value "0" (Some "7") / 100)%Q
  /\ @parseProgress Examples.ascii_strings "[download] 0.7%" <>
     Float64.round64 (numeral_value "0" (Some "7") / 100).
Proof.
  split; [repeat split; try reflexivity; discriminate|].
  split; [intros pre' ws' ip' fp' post' _; simpl; lia|].
  split; [split; vm_compute; discriminate|].
  split; [vm_compute; reflexivity|].
  split; vm_compute; discriminate.
Qed.

Section NoInformation.

Context {strs : Strings} {json : Json} {wid : Widgets}.

Lemma stage_progress_none : forall l : string,
  no_milestone l -> stage_progress l = (-1)%Q.
Proof.
  intros l [Hphr Hdl]. unfold stage_progress.
  rewrite (Contains_false l "extracting"), (Contains_false l "downloading webpage"),
    (Contains_false l "downloading video"), (Contains_false l "downloading audio"),
    (Contains_false l "merging"), (Contains_false l "post-processing"),
    (Contains_false l "finished"), (Contains_false l "completed")
    by (apply Hphr; simpl; tauto).
  destruct (Contains l "[download]") eqn:E1; [|reflexivity].
  destruct (Contains l "%") eqn:E2; [|reflexivity].
  destruct Hdl. split; apply Contains_true; assumption.
Qed.

(** A negative fraction at the head of the queue leaves the fraction of
    the entry as it was. *)
Lemma drain_entry_negative : forall (fs : FS) (sh : shared) (vd : VideoDownload)
    (m : ProgressFractionMsg) (rest : list ProgressFractionMsg),
  (Fraction m < 0)%Q -> buf (ProgressCh vd) = m :: rest ->
  Percent (drain_entry fs sh vd).2 = Percent vd.
Proof.
  intros fs sh vd m rest Hneg Hbuf. unfold drain_entry, try_recv.
  destruct (Done vd); [reflexivity|]. rewrite Hbuf. simpl.
  destruct (Qle_bool 0 (Fraction m)) eqn:E; [|reflexivity].
  apply Qle_bool_iff in E. exfalso. apply (Qlt_irrefl 0).
  eapply Qle_lt_trans; eassumption.
Qed.

(** C9. A line in which the pattern matches nowhere and whose lower-cased
    form triggers none of the fallback rules is parsed to -1; and when the
    loop takes a message with a negative fraction from the queue of an
    entry, the fraction of the entry stays what it was. *)
Theorem parseProgress_no_information : forall line : string,
  no_match line -> no_milestone (ToLower line) ->
  parseProgress line = (-1)%Q /\
  forall (fs : FS) (sh : shared) (vd : VideoDownload)
         (m : ProgressFractionMsg) (rest : list ProgressFractionMsg),
    (Fraction m < 0)%Q -> buf (ProgressCh vd) = m :: rest ->
    Percent (drain_entry fs sh vd).2 = Percent vd.
Proof.
  intros line Hno Hmile. split.
  - unfold parseProgress. apply FindStringSubmatch_nil_iff in Hno as ->.
    apply stage_progress_none, Hmile.
  - apply drain_entry_negative.
Qed.

End NoInformation.

Lemma parseProgress_no_information_witness :
  @parseProgress Examples.ascii_strings
    "[youtube] abc123: Downloading 1 format(s): 137+140" = (-1)%Q
  /\ forall (fs : FS) (sh : shared) (vd : VideoDownload)
            (m : ProgressFractionMsg) (rest : list ProgressFractionMsg),
       (Fraction m < 0)%Q -> buf (ProgressCh vd) = m :: rest ->
       Percent (@drain_entry Examples.empty_object_json Examples.plain_widgets
                  fs sh vd).2 = Percent vd.
Proof.
  apply (@parseProgress_no_information Examples.ascii_strings
           Examples.empty_object_json Examples.plain_widgets
           "[youtube] abc123: Downloading 1 format(s): 137+140").
  - apply FindStringSubmatch_nil_iff. reflexivity.
  - split.
    + intros w Hw Hocc. apply Contains_true in Hocc.
      simpl in Hw.
      repeat (destruct Hw as [<-|Hw]; [vm_compute in Hocc; discriminate|]).
      destruct Hw.
    + intros [H _]. apply Contains_true in H. vm_compute in H. discriminate.
Defined.

(** ** Names derived from URLs *)

Lemma all_append : forall (p : ascii -> bool) (a b : string),
  all p (a +:+ b) = all p a && all p b.
Proof.
  intros p. induction a as [|c a IH]; intros b; simpl; [reflexivity|].
  rewrite IH, andb_assoc. reflexivity.
Qed.

Lemma from_append_le : forall (j : nat) (a r : string),
  (j <= len a)%nat -> from j (a +:+ r) = from j a +:+ r.
Proof.
  induction j as [|j IH]; intros [|c a] r H; simpl in *; try reflexivity; try lia.
  apply IH. lia.
Qed.

Lemma len_from : forall (j : nat) (a : string), len (from j a) = (len a - j)%nat.
Proof.
  induction j as [|j IH]; intros [|c a]; simpl; try reflexivity; try lia.
  apply IH.
Qed.

Lemma lacks_from : forall (x : ascii) (j : nat) (a : string),
  lacks x a -> lacks x (from j a).
Proof.
  unfold lacks. intros x. induction j as [|j IH]; intros [|c a] H; simpl in *;
    try assumption; try reflexivity.
  apply andb_true_iff in H as [_ H]. apply IH, H.
Qed.

(** Where [x] first occurs in a string that starts with [a], [a] without [x]. *)
Lemma span_lacks : forall (x : ascii) (a r : string),
  lacks x a ->
  span (fun c => negb (Ascii.eqb c x)) (a +:+ String x r) = (a, String x r).
Proof.
  intros x a r H. apply span_append; [exact H|].
  rewrite Ascii.eqb_refl. reflexivity.
Qed.

(** A string that has [x] as its first occurrence of [x] after [sub1]
    does not occur before the end of a prefix without [x]. *)
Lemma Index_after_lacks : forall (x : ascii) (sub1 sub2 sub a b : string),
  sub = sub1 +:+ String x sub2 -> lacks x a -> lacks x sub1 ->
  Index (a +:+ sub +:+ b) sub = Some (len a).
Proof.
  intros x sub1 sub2 sub a b -> Ha Hs. apply Index_first_occurrence. intros j Hj.
  destruct (HasPrefix _ _) eqn:Hp; [|reflexivity]. exfalso.
  apply HasPrefix_true in Hp. rewrite from_append_le in Hp by lia.
  rewrite (append_assoc sub1), <- (append_assoc (from j a)) in Hp.
  rewrite (append_assoc sub1) in Hp.
  assert (Hspan : span (fun c => negb (Ascii.eqb c x))
                    ((from j a +:+ sub1) +:+ String x (sub2 +:+ b))
                  = (from j a +:+ sub1, String x (sub2 +:+ b))).
  { apply span_lacks. unfold lacks. rewrite all_append.
    rewrite (lacks_from x j a Ha), Hs. reflexivity. }
  simpl in Hp. rewrite Hp in Hspan. rewrite span_lacks in Hspan by exact Hs.
  injection Hspan as Hlen _. apply (f_equal len) in Hlen.
  rewrite len_append, len_from in Hlen. lia.
Qed.

Lemma Index_lacks : forall (x : ascii) (sub1 sub2 sub s : string),
  sub = sub1 +:+ String x sub2 -> lacks x s -> Index s sub = None.
Proof.
  intros x sub1 sub2 sub s -> H. destruct (Index s _) as [i|] eqn:E; [|reflexivity].
  apply Index_Some_split in E as [E _]. unfold lacks in H.
  rewrite E, !all_append in H. simpl in H. rewrite Ascii.eqb_refl in H.
  simpl in H. rewrite !andb_false_r in H. discriminate.
Qed.

Lemma Index_None_iff : forall s sub : string,
  Index s sub = None <-> ~ occurs sub s.
Proof.
  intros s sub. pose proof (Contains_true s sub) as H. unfold Contains in H.
  destruct (Index s sub); split; intros H'; try discriminate; try reflexivity.
  - destruct H'. apply H. reflexivity.
  - intros Hocc. apply H in Hocc. discriminate.
Qed.

Lemma strip_scheme : forall url u : string,
  without_scheme url u ->
  match Index url "://" with
  | Some idx => from (idx + 3) url
  | None => url
  end = u.
Proof.
  intros url u [(scheme & -> & Hs)|[-> Hno]].
  - rewrite (Index_after_lacks ":" "" "//" "://" scheme u eq_refl Hs eq_refl).
    rewrite <- (append_assoc scheme "://" u).
    replace (len scheme + 3)%nat with (len (scheme +:+ "://"))
      by (rewrite len_append; reflexivity).
    apply from_append.
  - apply Index_None_iff in Hno. rewrite Hno. reflexivity.
Qed.

(** Cutting an identifier at the first [x], when it is followed by [x] or
    by nothing. *)
Lemma cut_at : forall (x : ascii) (id rest : string),
  lacks x id -> opens_with x rest ->
  match Index (id +:+ rest) (String x "") with
  | Some idx => upto idx (id +:+ rest)
  | None => id +:+ rest
  end = id.
Proof.
  intros x id [|c rest] Hid Hrest; simpl in Hrest.
  - rewrite append_empty_r, (Index_lacks x "" "" (String x "") id eq_refl Hid). reflexivity.
  - subst c. change (String x rest) with (String x "" +:+ rest).
    rewrite (Index_after_lacks x "" "" (String x "") id rest eq_refl Hid eq_refl).
    apply upto_append.
Qed.

Lemma extractURLName_watch : forall url id : string,
  watch_url url id -> extractURLName url = "YouTube Video: " +:+ id.
Proof.
  intros url id (u & host & rest & Hu & -> & Hhost & Hid & Hrest).
  unfold extractURLName. rewrite (strip_scheme _ _ Hu).
  replace (Contains _ "youtube.com/watch?v=") with true
    by (symmetry; apply Contains_true; eauto).
  assert (Hsplit : host +:+ "youtube.com/watch?v=" +:+ id +:+ rest =
                   (host +:+ "youtube.com/watch?") +:+ "v=" +:+ (id +:+ rest)).
  { rewrite (append_assoc host). reflexivity. }
  rewrite Hsplit.
  rewrite (Index_after_lacks "=" "v" "" "v=" _ (id +:+ rest) eq_refl);
    [| |reflexivity].
  2:{ unfold lacks. rewrite all_append, Hhost. reflexivity. }
  rewrite <- (append_assoc (host +:+ "youtube.com/watch?")).
  replace (len (host +:+ "youtube.com/watch?") + 2)%nat
    with (len ((host +:+ "youtube.com/watch?") +:+ "v="))
    by (rewrite !len_append; reflexivity).
  rewrite from_append, (cut_at "&" id rest Hid Hrest). reflexivity.
Qed.

Lemma extractURLName_short : forall url id : string,
  short_url url id -> extractURLName url = "YouTube Video: " +:+ id.
Proof.
  intros url id (u & host & rest & Hu & -> & Hhost & Hid & Hrest & Hno).
  unfold extractURLName. rewrite (strip_scheme _ _ Hu).
  rewrite (Contains_false _ _ Hno).
  replace (Contains _ "youtu.be/") with true
    by (symmetry; apply Contains_true; eauto).
  rewrite (Index_after_lacks "/" "youtu.be" "" "youtu.be/" host (id +:+ rest)
             eq_refl Hhost eq_refl).
  rewrite <- (append_assoc host).
  replace (len host + 9)%nat with (len (host +:+ "youtu.be/"))
    by (rewrite !len_append; reflexivity).
  rewrite from_append, (cut_at "?" id rest Hid Hrest). reflexivity.
Qed.

Section Titles.

Context {strs : Strings} {sys : System} {json : Json} {wid : Widgets}.

(** A lookup that ended with an error renames the first entry of the URL
    to the upper-cased URL. *)
Lemma apply_title_failed : forall (url title err st : string)
    (before : list VideoDownload) (vd : VideoDownload) (after : list VideoDownload),
  vd_URL vd = url -> Forall (fun x => vd_URL x <> url) before ->
  apply_title url title (Some err) st (before ++ vd :: after) =
  ("⚠ CASE IDENTIFICATION FAILED • USING RAW SEQUENCE",
   before ++ mkVideoDownload url (truncateString (ToUpper url) 28) (Percent vd)
               (Log vd) (ProgressCh vd) (Done vd) true :: after).
Proof.
  intros url title err st before vd after Hvd Hbefore.
  induction Hbefore as [|x before Hx _ IH]; simpl.
  - rewrite Hvd, String.eqb_refl. reflexivity.
  - apply String.eqb_neq in Hx. rewrite Hx, IH. reflexivity.
Qed.

(** The message of a lookup that failed or was overtaken by the timer. *)
Lemma run_fetchTitleCmd_failed : forall (url err : string) (timer_first : bool),
  timer_first = true \/ run_err (os_run (title_command url)) = Some err ->
  exists (title err' : string),
    run_fetchTitleCmd url timer_first = titleFetchedMsg url title (Some err').
Proof.
  intros url err timer_first H. unfold run_fetchTitleCmd.
  destruct timer_first; [eauto|]. destruct H as [H|H]; [discriminate|].
  unfold FetchTitleAsync. rewrite H. simpl. eauto.
Qed.

(** C6, as the code has it. For a URL of a known shape the name derived
    from the URL is the label followed by the identifier, and it is the
    title [FetchTitleAsync] reports when the lookup fails or prints
    nothing. When the lookup ends with an error, or the timer fires first,
    the entry is not shown under that name: it is shown under its
    upper-cased URL, cut to 28 bytes. *)
Theorem fallback_name_of_known_shape : forall url id : string,
  known_shape url id ->
  extractURLName url = "YouTube Video: " +:+ id /\
  (run_err (os_run (title_command url)) <> None \/
   TrimSpace (run_stdout (os_run (title_command url))) = "" ->
   tf_Title (FetchTitleAsync url) = "YouTube Video: " +:+ id) /\
  forall (fs : FS) (m : model) (before : list VideoDownload) (vd : VideoDownload)
         (after : list VideoDownload) (timer_first : bool) (err : string),
    videoQueue m = before ++ vd :: after ->
    vd_URL vd = url -> Forall (fun x => vd_URL x <> url) before ->
    timer_first = true \/ run_err (os_run (title_command url)) = Some err ->
    videoQueue (Update fs m (run_fetchTitleCmd url timer_first)).1 =
    before ++ mkVideoDownload url (truncateString (ToUpper url) 28) (Percent vd)
                (Log vd) (ProgressCh vd) (Done vd) true :: after.
Proof.
  intros url id Hshape.
  assert (Hname : extractURLName url = "YouTube Video: " +:+ id).
  { destruct Hshape; [apply extractURLName_watch|apply extractURLName_short];
      assumption. }
  split; [exact Hname|]. split.
  - intros Hfail. unfold FetchTitleAsync.
    destruct (run_err (os_run (title_command url))) as [err|]; [exact Hname|].
    destruct Hfail as [Hfail|Hfail]; [congruence|]. rewrite Hfail. exact Hname.
  - intros fs m before vd after timer_first err Hq Hvd Hbefore Hfail.
    destruct (run_fetchTitleCmd_failed url err timer_first Hfail)
      as (title & err' & ->).
    unfold Update, dispatch. rewrite Hq.
    rewrite (apply_title_failed url title err' _ before vd after Hvd Hbefore).
    reflexivity.
Qed.

End Titles.

Lemma fallback_name_of_known_shape_witness :
  extractURLName "https://youtu.be/abc123?t=5" = "YouTube Video: " +:+ "abc123" /\
  (run_err (@os_run Examples.no_binary (title_command "https://youtu.be/abc123?t=5"))
   <> None \/
   @TrimSpace Examples.ascii_strings
     (run_stdout (@os_run Examples.no_binary
                    (title_command "https://youtu.be/abc123?t=5"))) = "" ->
   tf_Title (@FetchTitleAsync Examples.ascii_strings Examples.no_binary
               "https://youtu.be/abc123?t=5") = "YouTube Video: " +:+ "abc123") /\
  forall (fs : FS) (m : @model Examples.plain_widgets)
         (before : list VideoDownload) (vd : VideoDownload)
         (after : list VideoDownload) (timer_first : bool) (err : string),
    videoQueue m = before ++ vd :: after ->
    vd_URL vd = "https://youtu.be/abc123?t=5" ->
    Forall (fun x => vd_URL x <> "https://youtu.be/abc123?t=5") before ->
    timer_first = true \/
    run_err (@os_run Examples.no_binary (title_command "https://youtu.be/abc123?t=5"))
    = Some err ->
    videoQueue (@Update Examples.ascii_strings Examples.empty_object_json
                  Examples.plain_widgets fs m
                  (@run_fetchTitleCmd Examples.ascii_strings Examples.no_binary
                     "https://youtu.be/abc123?t=5" timer_first)).1 =
    before ++ mkVideoDownload "https://youtu.be/abc123?t=5"
                (truncateString
                   (@ToUpper Examples.ascii_strings "https://youtu.be/abc123?t=5") 28)
                (Percent vd) (Log vd) (ProgressCh vd) (Done vd) true :: after.
Proof.
  apply (@fallback_name_of_known_shape Examples.ascii_strings Examples.no_binary
           Examples.empty_object_json Examples.plain_widgets
           "https://youtu.be/abc123?t=5" "abc123").
  right. exists "youtu.be/abc123?t=5", "", "?t=5". repeat split.
  - left. exists "https". split; reflexivity.
  - intros H. apply Contains_true in H. vm_compute in H. discriminate.
Defined.

(** C6, as stated, fails: without the yt-dlp binary the lookup for
    [https://youtu.be/abc123?t=5] fails and the entry is shown under the
    upper-cased URL, not under the name derived from the URL. Nor is the
    name derived from a URL that holds [youtube.com/watch?v=ID] always
    the label with that identifier: the identifier is read after the
    first [v=] of the URL, wherever it is. *)
Lemma lookup_failure_shows_raw_url :
  (occurs "youtube.com/watch?v=ID" "https://example.com/?v=1&u=youtube.com/watch?v=ID"
   /\ extractURLName "https://example.com/?v=1&u=youtube.com/watch?v=ID"
      = "YouTube Video: 1")
  /\ Name <$> videoQueue
    (@Update Examples.ascii_strings Examples.empty_object_json
       Examples.plain_widgets ∅ (Examples.queued "https://youtu.be/abc123?t=5")
       (@run_fetchTitleCmd Examples.ascii_strings Examples.no_binary
          "https://youtu.be/abc123?t=5" false)).1
  = ["HTTPS://YOUTU.BE/ABC123?T=5"]
  /\ extractURLName "https://youtu.be/abc123?t=5" = "YouTube Video: abc123"
  /\ Name <$> videoQueue
       (@Update Examples.ascii_strings Examples.empty_object_json
          Examples.plain_widgets ∅ (Examples.queued "https://youtu.be/abc123?t=5")
          (@run_fetchTitleCmd Examples.ascii_strings Examples.no_binary
             "https://youtu.be/abc123?t=5" false)).1
     <> [extractURLName "https://youtu.be/abc123?t=5"].
Proof.
  split; [split; [exists "https://example.com/?v=1&u=", ""|]; reflexivity|].
  repeat split. vm_compute. discriminate.
Qed.

(** ** The history store *)

Section History.

Context {json : Json}.

(** Appending to a store from which no record is read writes the
    collection of the new record alone. *)
Lemma append_info_fresh : forall (info : VideoInfo) (path : string) (fs : FS),
  missing_or_nothing_decoded fs path \/ empty_store fs path ->
  append_info info path fs =
  match json_MarshalIndent [info] with
  | Some data => <[path := data]> fs
  | None => fs
  end.
Proof.
  intros info path fs H. unfold append_info.
  destruct H as [[H|(data & H & [Hd|Hd])]|(data & H & Hd)]; rewrite H;
    try rewrite Hd; reflexivity.
Qed.

Lemma loadHistory_insert : forall (path data : string) (fs : FS),
  loadHistory path (<[path := data]> fs) =
  match json_Unmarshal_infos data with
  | Decoded infos _ => infos
  | Invalid => []
  end.
Proof. intros. unfold loadHistory. rewrite lookup_insert_eq. reflexivity. Qed.

(** C7, as the code has it. Two records appended to a missing store are
    loaded back in the order of the appends, provided the codec gives back
    the collections it wrote. An append to a store whose file is missing,
    or from which nothing is decoded, does what an append to a store with
    the empty collection does. When decoding reports an error after it
    has decoded records, the error is dropped and the records are kept:
    the new record is written after them. *)
Theorem history_append_in_order : forall (R1 R2 : VideoInfo) (path : string)
    (fs : FS) (d1 d2 : string) (e1 e2 : bool),
  fs !! path = None ->
  json_MarshalIndent [R1] = Some d1 ->
  json_Unmarshal_infos d1 = Decoded [R1] e1 ->
  json_MarshalIndent [R1; R2] = Some d2 ->
  json_Unmarshal_infos d2 = Decoded [R1; R2] e2 ->
  loadHistory path (append_info R2 path (append_info R1 path fs)) = [R1; R2]
  /\ (forall (R : VideoInfo) (fs1 fs0 : FS),
       missing_or_nothing_decoded fs1 path -> empty_store fs0 path ->
       append_info R path fs1 =
         match json_MarshalIndent [R] with
         | Some data => <[path := data]> fs1
         | None => fs1
         end
       /\ append_info R path fs0 =
         match json_MarshalIndent [R] with
         | Some data => <[path := data]> fs0
         | None => fs0
         end
       /\ loadHistory path (append_info R path fs1) =
          loadHistory path (append_info R path fs0))
  /\ (forall (R : VideoInfo) (fs1 : FS) (data : string) (kept : list VideoInfo),
       fs1 !! path = Some data ->
       json_Unmarshal_infos data = Decoded kept true ->
       unparseable data
       /\ append_info R path fs1 =
          match json_MarshalIndent (kept ++ [R]) with
          | Some data' => <[path := data']> fs1
          | None => fs1
          end).
Proof.
  intros R1 R2 path fs d1 d2 e1 e2 Hmiss Hm1 Hu1 Hm2 Hu2. split; [|split].
  - rewrite (append_info_fresh R1 path fs) by (left; left; exact Hmiss).
    rewrite Hm1. unfold append_info at 1. rewrite lookup_insert_eq, Hu1.
    simpl. rewrite Hm2, loadHistory_insert, Hu2. reflexivity.
  - intros R fs1 fs0 H1 H0.
    rewrite (append_info_fresh R path fs1) by (left; exact H1).
    rewrite (append_info_fresh R path fs0) by (right; exact H0).
    repeat split.
    destruct (json_MarshalIndent [R]) as [d|].
    + rewrite !loadHistory_insert. reflexivity.
    + unfold loadHistory.
      destruct H0 as (data0 & -> & ->).
      destruct H1 as [->|(data1 & -> & [->| ->])]; reflexivity.
  - intros R fs1 data kept Hfile Hdec. split.
    + right. exists kept. exact Hdec.
    + unfold append_info. rewrite Hfile, Hdec. reflexivity.
Qed.

End History.

Lemma history_append_in_order_witness :
  @loadHistory Examples.two_document_json "downloads.json"
    (@append_info Examples.two_document_json Examples.record2 "downloads.json"
       (@append_info Examples.two_document_json Examples.record1 "downloads.json" ∅))
  = [Examples.record1; Examples.record2]
  /\ (forall (R : VideoInfo) (fs1 fs0 : FS),
       @missing_or_nothing_decoded Examples.two_document_json fs1 "downloads.json" ->
       @empty_store Examples.two_document_json fs0 "downloads.json" ->
       @append_info Examples.two_document_json R "downloads.json" fs1 =
         match @json_MarshalIndent Examples.two_document_json [R] with
         | Some data => <["downloads.json" := data]> fs1
         | None => fs1
         end
       /\ @append_info Examples.two_document_json R "downloads.json" fs0 =
         match @json_MarshalIndent Examples.two_document_json [R] with
         | Some data => <["downloads.json" := data]> fs0
         | None => fs0
         end
       /\ @loadHistory Examples.two_document_json "downloads.json"
            (@append_info Examples.two_document_json R "downloads.json" fs1) =
          @loadHistory Examples.two_document_json "downloads.json"
            (@append_info Examples.two_document_json R "downloads.json" fs0))
  /\ (forall (R : VideoInfo) (fs1 : FS) (data : string) (kept : list VideoInfo),
       fs1 !! "downloads.json" = Some data ->
       @json_Unmarshal_infos Examples.two_document_json data = Decoded kept true ->
       @unparseable Examples.two_document_json data
       /\ @append_info Examples.two_document_json R "downloads.json" fs1 =
          match @json_MarshalIndent Examples.two_document_json (kept ++ [R]) with
          | Some data' => <["downloads.json" := data']> fs1
          | None => fs1
          end).
Proof.
  apply (@history_append_in_order Examples.two_document_json Examples.record1
           Examples.record2 "downloads.json" ∅ "1" "2" false false);
    reflexivity.
Defined.

(** C7, as stated, fails for a file that cannot be parsed without error
    but from which records are decoded: the array whose second element
    has a number for its URL is read as two records, with an error; the
    append keeps both, where an append to the empty store keeps none. *)
Lemma partly_decoded_history_is_kept :
  @unparseable Examples.mistyped_json Examples.mistyped_document
  /\ @empty_store Examples.mistyped_json {[ "downloads.json" := "[]" ]} "downloads.json"
  /\ @loadHistory Examples.mistyped_json "downloads.json"
       (@append_info Examples.mistyped_json Examples.record2 "downloads.json"
          {[ "downloads.json" := Examples.mistyped_document ]})
     = [Examples.url_only; Examples.blank; Examples.record2]
  /\ @loadHistory Examples.mistyped_json "downloads.json"
       (@append_info Examples.mistyped_json Examples.record2 "downloads.json"
          {[ "downloads.json" := "[]" ]})
     = [Examples.record2]
  /\ @loadHistory Examples.mistyped_json "downloads.json"
       (@append_info Examples.mistyped_json Examples.record2 "downloads.json"
          {[ "downloads.json" := Examples.mistyped_document ]})
     <> @loadHistory Examples.mistyped_json "downloads.json"
          (@append_info Examples.mistyped_json Examples.record2 "downloads.json"
             {[ "downloads.json" := "[]" ]}).
Proof.
  split; [right; exists [Examples.url_only; Examples.blank]; reflexivity|].
  split; [exists "[]"; split; reflexivity|].
  split; [reflexivity|]. split; [reflexivity|]. discriminate.
Qed.

(** ** The preview of the view *)

Section View.

Context {strs : Strings} {json : Json} {wid : Widgets}.

Lemma apply_title_channels : forall (url title : string) (err : option string)
    (st : string) (q : list VideoDownload),
  Forall (fun vd => closed (ProgressCh vd) = false) q ->
  Forall (fun vd => closed (ProgressCh vd) = false)
    (apply_title url title err st q).2.
Proof.
  intros url title err st q H. induction H as [|vd q Hvd Hq IH]; simpl.
  - constructor.
  - destruct (String.eqb (vd_URL vd) url).
    + destruct (bool_decide (err = None) && negb (is_empty title));
        simpl; constructor; assumption.
    + destruct (apply_title url title err st q) as [st' q']. simpl in *.
      constructor; assumption.
Qed.

Lemma drain_queue_open : forall (fs : FS) (q : list VideoDownload) (sh : shared),
  Forall (fun vd => closed (ProgressCh vd) = false) q ->
  Forall (fun vd => closed (ProgressCh vd) = false) (drain_queue fs sh q).2 /\
  sh_history (drain_queue fs sh q).1 = sh_history sh /\
  sh_selectedIndex (drain_queue fs sh q).1 = sh_selectedIndex sh.
Proof.
  intros fs q sh H. revert sh. induction H as [|vd q Hvd _ IH]; intros sh; simpl.
  - auto.
  - assert (Hone : closed (ProgressCh (drain_entry fs sh vd).2) = false /\
                   sh_history (drain_entry fs sh vd).1 = sh_history sh /\
                   sh_selectedIndex (drain_entry fs sh vd).1 = sh_selectedIndex sh).
    { unfold drain_entry, try_recv. destruct (Done vd); [auto|]. rewrite Hvd.
      destruct (buf (ProgressCh vd)) as [|pm rest]; simpl; [auto|].
      destruct (_ && _); simpl; auto. }
    destruct (drain_entry fs sh vd) as [sh1 vd1]. simpl in Hone.
    destruct Hone as (Hopen & Hh & Hs).
    specialize (IH sh1). destruct (drain_queue fs sh1 q) as [sh2 q2].
    simpl in *. destruct IH as (IHq & IHh & IHs).
    repeat split; [constructor; assumption|congruence|congruence].
Qed.

Lemma Update_view_safe : forall (fs : FS) (m : model) (msg : Msg),
  view_safe m -> view_safe (Update fs m msg).1.
Proof.
  intros fs m msg [Hq Hsel]. unfold view_safe.
  destruct msg as [w h|url title err|key| |format|]; simpl; auto.
  - pose proof (apply_title_channels url title err (status m) _ Hq) as H.
    destruct (apply_title _ _ _ _ _) as [st q]. simpl in *. auto.
  - destruct (String.eqb key "ctrl+c" || String.eqb key "esc"); [simpl; auto|].
    unfold key_pressed.
    destruct (String.eqb key "m"); [simpl; auto|].
    destruct (String.eqb key "enter").
    { destruct (is_empty _); simpl; [auto|]. split; [|exact Hsel].
      apply Forall_app. split; [exact Hq|]. constructor; [reflexivity|constructor]. }
    destruct (String.eqb key "up").
    { simpl. split; [exact Hq|]. destruct Hsel as [Hsel|Hsel]; [auto|right].
      destruct (Z.ltb_spec 0 (selectedIndex m)); lia. }
    destruct (String.eqb key "down"); [|simpl; auto].
    simpl. split; [exact Hq|]. destruct Hsel as [Hsel|Hsel]; [auto|right].
    destruct (Z.ltb_spec (selectedIndex m) (Z.of_nat (length (history m)) - 1)); lia.
  - pose proof (drain_queue_open fs _ (mkShared (status m) (history m) (selectedIndex m)) Hq)
      as (H1 & H2 & H3).
    destruct (drain_queue _ _ _) as [sh q]. simpl in *. rewrite H2, H3. auto.
Qed.

Lemma advance_view_safe : forall (ev : event) (m : model),
  view_safe m -> exists m', advance ev m = Returned m' /\ view_safe m'.
Proof.
  intros [fs msg|entry pm] m Hm.
  - eexists. split; [reflexivity|]. apply Update_view_safe, Hm.
  - destruct Hm as [Hq Hsel]. unfold advance, offer.
    destruct (videoQueue m !! entry) as [vd|] eqn:Hvd.
    + assert (Hopen : closed (ProgressCh vd) = false).
      { exact (Forall_lookup_1 _ _ _ _ Hq Hvd). }
      destruct (try_send_open (ProgressCh vd) pm Hopen) as (ch & -> & Hch).
      eexists. split; [reflexivity|]. split; [|exact Hsel]. simpl.
      apply Forall_insert; assumption.
    + eexists. split; [reflexivity|]. destruct m. split; assumption.
Qed.

(** X21. From its initial model on, whatever messages arrive and whatever
    the producers offer, the program keeps running and the preview of
    [View] indexes the history within its bounds. *)
Lemma View_index_in_bounds : forall (ti : textinput) (hex : string) (fs0 : FS)
    (evs : list event),
  exists (m : model) (shown : option VideoInfo),
    run evs (InitialModel ti hex fs0) = Returned m /\
    preview_info m = Returned shown.
Proof.
  intros ti hex fs0 evs.
  assert (Hinit : view_safe (InitialModel ti hex fs0)).
  { split; [constructor|]. simpl. destruct (loadHistory _ fs0); [auto|right].
    simpl. lia. }
  revert Hinit. generalize (InitialModel ti hex fs0) as m.
  induction evs as [|ev evs IH]; intros m Hm.
  - exists m. destruct Hm as [_ Hsel]. unfold preview_info.
    destruct Hsel as [->|Hsel]; [simpl; eauto|].
    destruct (Nat.ltb_spec 0 (length (history m))); [|eauto].
    destruct (Z.ltb_spec (selectedIndex m) 0); [lia|].
    destruct (history m !! Z.to_nat (selectedIndex m)) eqn:E; [eauto|].
    apply lookup_ge_None in E. lia.
  - simpl. destruct (advance_view_safe ev m Hm) as (m' & -> & Hm').
    apply IH, Hm'.
Qed.

End View.

(** ** A program driven by ticks *)

Section Idle.

Context {strs : Strings} {json : Json} {wid : Widgets}.

Lemma apply_title_untouched : forall (url title : string) (err : option string)
    (st : string) (q : list VideoDownload),
  Forall untouched q -> Forall untouched (apply_title url title err st q).2.
Proof.
  intros url title err st q H. induction H as [|vd q Hvd Hq IH]; simpl.
  - constructor.
  - destruct (String.eqb (vd_URL vd) url).
    + destruct (bool_decide (err = None) && negb (is_empty title));
        simpl; constructor; assumption.
    + destruct (apply_title url title err st q) as [st' q']. simpl in *.
      constructor; assumption.
Qed.

Lemma Update_untouched : forall (fs : FS) (m : model) (msg : Msg),
  arrives (Deliver fs msg) = true ->
  Forall untouched (videoQueue m) ->
  Forall untouched (videoQueue (Update fs m msg).1).
Proof.
  intros fs m msg Harr Hq.
  destruct msg as [w h|url title err|key| |format|]; simpl; auto;
    [| |discriminate].
  - pose proof (apply_title_untouched url title err (status m) _ Hq) as H.
    destruct (apply_title _ _ _ _ _) as [st q]. exact H.
  - destruct (String.eqb key "ctrl+c" || String.eqb key "esc"); [exact Hq|].
    unfold key_pressed.
    destruct (String.eqb key "m"); [exact Hq|].
    destruct (String.eqb key "enter").
    { destruct (is_empty _); simpl; [exact Hq|].
      apply Forall_app. split; [exact Hq|].
      constructor; [repeat split|constructor]. }
    destruct (String.eqb key "up"); [exact Hq|].
    destruct (String.eqb key "down"); exact Hq.
Qed.

Lemma offer_untouched : forall (q q' : list VideoDownload) (entry : nat)
    (pm : ProgressFractionMsg),
  offer q entry pm = Returned q' -> Forall untouched q -> Forall untouched q'.
Proof.
  intros q q' entry pm. unfold offer.
  destruct (q !! entry) as [vd|] eqn:Hvd; [|intros [= <-]; auto].
  destruct (try_send (ProgressCh vd) pm) as [ch|]; [|discriminate].
  intros [= <-] Hq. apply Forall_insert; [exact Hq|].
  exact (Forall_lookup_1 _ _ _ _ Hq Hvd).
Qed.

(** X22. While the messages are those that arrive in a running program,
    ticks among them, no entry ever shows progress, a log line or
    completion, whatever its producer offers. *)
Lemma ticks_show_no_progress : forall (ti : textinput) (hex : string) (fs0 : FS)
    (evs : list event) (m : model),
  forallb arrives evs = true ->
  run evs (InitialModel ti hex fs0) = Returned m ->
  Forall untouched (videoQueue m).
Proof.
  intros ti hex fs0 evs m Harr.
  assert (Hinit : Forall untouched (videoQueue (InitialModel ti hex fs0)))
    by constructor.
  revert Hinit. generalize (InitialModel ti hex fs0) as m0.
  induction evs as [|ev evs IH]; intros m0 H0 Hrun; simpl in *.
  - injection Hrun as <-. exact H0.
  - apply andb_true_iff in Harr as [Hev Harr].
    destruct (advance ev m0) as [m1|] eqn:Hadv; [|discriminate].
    apply (IH Harr m1); [|exact Hrun].
    destruct ev as [fs msg|entry pm]; simpl in Hadv.
    + injection Hadv as <-. apply Update_untouched; assumption.
    + destruct (offer (videoQueue m0) entry pm) as [q|] eqn:Hoff; [|discriminate].
      injection Hadv as <-. simpl. eapply offer_untouched; eassumption.
Qed.

End Idle.

(** ** Further properties of the parser and of the readers *)

Lemma digit_value_nonneg : forall c : ascii,
  is_digit c = true -> (0 <= digit_value c)%Z.
Proof.
  intros c H. unfold is_digit, in_range in H. unfold digit_value.
  apply andb_true_iff in H as [H _]. apply Nat.leb_le in H. lia.
Qed.

Lemma digits_value_nonneg : forall (s : string) (acc : Z),
  all is_digit s = true -> (0 <= acc)%Z -> (0 <= digits_value acc s)%Z.
Proof.
  induction s as [|c s IH]; intros acc Hall Hacc; simpl in *; [exact Hacc|].
  apply andb_true_iff in Hall as [Hc Hs]. apply IH; [exact Hs|].
  pose proof (digit_value_nonneg c Hc). lia.
Qed.

Lemma SF2Q_not_negative : forall f : spec_float,
  Float64.not_negative f -> (0 <= Float64.SF2Q f)%Q.
Proof.
  intros [s|s| |s m e]; simpl; try discriminate.
  destruct s; [intros []|intros _].
  destruct e; unfold Qle; simpl; lia.
Qed.

Lemma nearest_not_negative : forall q : Q,
  (0 <= q)%Q -> Float64.not_negative (Float64.nearest q).
Proof.
  intros q Hq. unfold Float64.nearest.
  assert (H : (0 <= Qnum (Qred q))%Z).
  { rewrite <- (Qred_correct q) in Hq. unfold Qle in Hq. simpl in Hq. lia. }
  destruct (Qnum (Qred q)) as [|n|n]; [exact I| |lia].
  unfold Float64.exact, SFdiv.
  destruct (SFdiv_core_binary _ _ _ _ _ _) as [[mz ez] lz].
  unfold binary_round_aux.
  destruct (shr_fexp _ _ _ _ _) as [mrs' e'].
  destruct (shr_fexp _ _ _ _ _) as [mrs'' e''].
  destruct (shr_m mrs''); simpl; try exact I.
  destruct (_ <=? _)%Z; exact I.
Qed.

(** Rounding a number that is not negative gives one that is not. *)
Lemma round64_nonneg : forall q : Q, (0 <= q)%Q -> (0 <= Float64.round64 q)%Q.
Proof.
  intros q Hq. unfold Float64.round64. rewrite Qred_correct.
  apply SF2Q_not_negative, nearest_not_negative, Hq.
Qed.

Lemma in_float64_range_Some : forall v q : Q,
  in_float64_range v = Some q -> q = Float64.round64 v.
Proof.
  intros v q. unfold in_float64_range.
  destruct (Qle_bool float64_overflow v); [discriminate|]. congruence.
Qed.

Lemma ParseFloat_nonneg : forall (s : string) (q : Q),
  ParseFloat s = Some q -> (0 <= q)%Q.
Proof.
  intros s q. unfold ParseFloat.
  destruct (span is_digit s) as [ip r] eqn:Hspan.
  apply span_split in Hspan as (_ & Hip & _).
  destruct (is_empty ip); [discriminate|].
  destruct r as [|c fp].
  - intros H. apply in_float64_range_Some in H as ->. apply round64_nonneg.
    unfold Qle, inject_Z. simpl. pose proof (digits_value_nonneg ip 0 Hip). lia.
  - destruct (Ascii.eqb_spec c ".") as [->|Hc].
    + simpl. destruct (is_empty fp); [discriminate|].
      destruct (all is_digit fp) eqn:Hfp; [|discriminate]. simpl.
      intros H. apply in_float64_range_Some in H as ->. apply round64_nonneg.
      unfold Qle. simpl.
      assert (0 <= digits_value 0 (ip +:+ fp))%Z.
      { apply digits_value_nonneg; [|lia]. rewrite all_append, Hip, Hfp.
        reflexivity. }
      lia.
    + intros H. exfalso. revert H.
      destruct c as [[] [] [] [] [] [] [] []]; try discriminate.
      destruct Hc. reflexivity.
Qed.

Section ParserRange.

Context {strs : Strings}.

Lemma stage_progress_range : forall l : string,
  stage_progress l = (-1)%Q \/ (0 <= stage_progress l <= 1)%Q.
Proof.
  intros l. unfold stage_progress.
  repeat (match goal with
          | |- context [if ?b then _ else _] => destruct b
          end; [right; split; vm_compute; discriminate|]).
  left. reflexivity.
Qed.

(** X1. [parseProgress] returns the sentinel -1 or a fraction that is not
    negative: no other negative number reaches the callback through it. *)
Theorem parseProgress_sentinel_or_fraction : forall line : string,
  parseProgress line = (-1)%Q \/ (0 <= parseProgress line)%Q.
Proof.
  intros line. unfold parseProgress.
  assert (Hstage : stage_progress (ToLower line) = (-1)%Q \/
                   (0 <= stage_progress (ToLower line))%Q).
  { destruct (stage_progress_range (ToLower line)) as [H|[H _]]; auto. }
  destruct (FindStringSubmatch line) as [|w [|g rest]]; try exact Hstage.
  destruct (ParseFloat g) as [q|] eqn:Hq; [|exact Hstage].
  right. apply ParseFloat_nonneg in Hq. apply round64_nonneg.
  apply Qle_shift_div_l; [reflexivity|]. rewrite Qmult_0_l. exact Hq.
Qed.

(** Every call a reader makes carries a line that is not empty. *)
Lemma readOutput_lines : forall (lines : list string)
    (scan_err : option string) (source : string),
  Forall (fun call => Line call <> "") (readOutput lines scan_err source).
Proof.
  intros lines scan_err source. unfold readOutput. apply Forall_app. split.
  - induction lines as [|text lines IH]; simpl; [constructor|].
    apply Forall_app. split; [|exact IH].
    destruct (is_empty (TrimSpace text)) eqn:E; constructor; [|constructor].
    simpl. apply is_empty_false. exact E.
  - destruct scan_err; constructor; [|constructor]. simpl. discriminate.
Qed.

(** X2. A reader passes on the trimmed lines that are not blank, each
    once and in the order of the stream, each with the fraction
    [parseProgress] gives for it, and after them the read error if there
    is one; no call of a reader carries an empty line, so the end marker
    cannot come from the output of the subprocess. *)
Theorem readOutput_keeps_order : forall (lines : list string)
    (scan_err : option string) (source : string),
  Line <$> readOutput lines None source =
    filter (fun line => line <> "") (TrimSpace <$> lines) /\
  Forall (fun call => Fraction call = parseProgress (Line call))
    (readOutput lines None source) /\
  readOutput lines None source `prefix_of` readOutput lines scan_err source /\
  Forall (fun call => Line call <> "") (readOutput lines scan_err source).
Proof.
  intros lines scan_err source.
  assert (Hpre : readOutput lines None source `prefix_of`
                 readOutput lines scan_err source).
  { unfold readOutput. rewrite app_nil_r. apply prefix_app_r. reflexivity. }
  split; [|split; [|split; [exact Hpre|apply readOutput_lines]]];
    clear Hpre; unfold readOutput; rewrite app_nil_r.
  - induction lines as [|text lines IH]; [reflexivity|].
    cbn [flat_map]. rewrite fmap_app, fmap_cons, filter_cons.
    destruct (is_empty (TrimSpace text)) eqn:E.
    + apply is_empty_true in E. rewrite E.
      rewrite decide_False by (intros H; apply H; reflexivity). exact IH.
    + apply is_empty_false in E. rewrite decide_True by exact E.
      simpl. rewrite IH. reflexivity.
  - induction lines as [|text lines IH]; [constructor|].
    cbn [flat_map]. apply Forall_app. split; [|exact IH].
    destruct (is_empty (TrimSpace text)); constructor; [reflexivity|constructor].
Qed.

End ParserRange.

(** ** Further properties of the supervisor *)

Lemma interleave_Permutation : forall {A : Type} (sched : list bool) (xs ys : list A),
  interleave sched xs ys ≡ₚ xs ++ ys.
Proof.
  intros A sched. induction sched as [|b sched IH]; intros xs ys; simpl.
  - reflexivity.
  - destruct b.
    + destruct xs as [|x xs]; simpl; [reflexivity|]. rewrite IH. reflexivity.
    + destruct ys as [|y ys]; simpl; [rewrite app_nil_r; reflexivity|].
      rewrite IH. apply Permutation_middle.
Qed.

Lemma interleave_sublist_l : forall {A : Type} (sched : list bool) (xs ys : list A),
  xs `sublist_of` interleave sched xs ys.
Proof.
  intros A sched. induction sched as [|b sched IH]; intros xs ys; simpl.
  - apply sublist_inserts_r. reflexivity.
  - destruct b.
    + destruct xs as [|x xs]; [apply sublist_nil_l|]. apply sublist_skip, IH.
    + destruct ys as [|y ys]; [reflexivity|]. apply sublist_cons, IH.
Qed.

Lemma interleave_sublist_r : forall {A : Type} (sched : list bool) (xs ys : list A),
  ys `sublist_of` interleave sched xs ys.
Proof.
  intros A sched. induction sched as [|b sched IH]; intros xs ys; simpl.
  - apply sublist_inserts_l. reflexivity.
  - destruct b.
    + destruct xs as [|x xs]; [reflexivity|]. apply sublist_cons, IH.
    + destruct ys as [|y ys]; [apply sublist_nil_l|]. apply sublist_skip, IH.
Qed.

Section SupervisorMore.

Context {strs : Strings} {sys : System} {json : Json}.

(** X3. The calls of a run are calls with lines that are not empty,
    followed by at most one end marker: an empty line is never followed by
    another call, and it always comes with fraction 1. *)
Theorem end_marker_only_last : forall (url : string) (sched : list bool)
    (now : Z) (fs : FS),
  exists body : list ProgressFractionMsg,
    Forall (fun call => Line call <> "") body /\
    ((DownloadStreamWithProgress url sched now fs).1 = body \/
     (DownloadStreamWithProgress url sched now fs).1 = body ++ [mkProgress 1 ""]).
Proof.
  intros url sched now fs. unfold DownloadStreamWithProgress.
  destruct (stderr_pipe_err _);
    [eexists; split; [|left; reflexivity]; repeat constructor; discriminate|].
  destruct (stdout_pipe_err _);
    [eexists; split; [|left; reflexivity]; repeat constructor; discriminate|].
  destruct (start_err _);
    [eexists; split; [|left; reflexivity]; repeat constructor; discriminate|].
  set (readers := interleave sched _ _).
  assert (Hreaders : Forall (fun call => Line call <> "") readers).
  { unfold readers. rewrite interleave_Permutation. apply Forall_app.
    split; apply readOutput_lines. }
  destruct (wait_err _).
  - exists (readers ++ [mkProgress 1 ("❌ Download failed: " +:+ s)]). split.
    + apply Forall_app. split; [exact Hreaders|].
      repeat constructor. discriminate.
    + right. simpl. rewrite <- app_assoc. reflexivity.
  - destruct (saveVideoInfo _ _ _ _); simpl.
    + exists (readers ++ [mkProgress 1 "✅ Variant pruned - Timeline restored!"]).
      split; [|right; rewrite <- app_assoc; reflexivity].
      apply Forall_app. split; [exact Hreaders|]. repeat constructor. discriminate.
    + eexists. split; [|left; reflexivity].
      apply Forall_app. split; [exact Hreaders|]. repeat constructor. discriminate.
Qed.

(** X4. Once the subprocess has started, every call of either reader is
    passed on exactly once and before the closing calls of the supervisor,
    the calls of one reader in their order. *)
Theorem started_run_forwards_readers : forall (url : string) (sched : list bool)
    (now : Z) (fs : FS),
  stderr_pipe_err (os_start (download_command url)) = None ->
  stdout_pipe_err (os_start (download_command url)) = None ->
  start_err (os_start (download_command url)) = None ->
  let p := os_start (download_command url) in
  let from_stderr := readOutput (stderr_lines p) (stderr_scan_err p) "stderr" in
  let from_stdout := readOutput (stdout_lines p) (stdout_scan_err p) "stdout" in
  exists readers closing : list ProgressFractionMsg,
    (DownloadStreamWithProgress url sched now fs).1 = readers ++ closing /\
    readers ≡ₚ from_stderr ++ from_stdout /\
    from_stderr `sublist_of` readers /\
    from_stdout `sublist_of` readers /\
    (0 < length closing <= 2)%nat /\
    Forall (fun call => Fraction call = 1%Q) closing.
Proof.
  intros url sched now fs H1 H2 H3 p from_stderr from_stdout.
  subst from_stderr from_stdout p.
  unfold DownloadStreamWithProgress. rewrite H1, H2, H3.
  eexists (interleave sched _ _).
  destruct (wait_err _); [|destruct (saveVideoInfo _ _ _ _)]; simpl;
    eexists; (split; [reflexivity|]);
    (split; [apply interleave_Permutation|]);
    (split; [apply interleave_sublist_l|]);
    (split; [apply interleave_sublist_r|]);
    (split; [simpl; lia|repeat constructor]).
Qed.

(** X5. The supervisor writes no file but [downloads.json]. When a run
    returns, every other file is as the download process left it, or as
    it was before the run when the process was not started; and
    [downloads.json] is so too unless the process was started and exited
    without an error. *)
Theorem download_touches_history_only : forall (url : string) (sched : list bool)
    (now : Z) (fs fs' : FS) (calls : list ProgressFractionMsg),
  DownloadStreamWithProgress url sched now fs = (calls, Returned fs') ->
  let p := os_start (download_command url) in
  let left_behind := if launched p then files_after p fs else fs in
  (forall path : string, path <> "downloads.json" ->
     fs' !! path = left_behind !! path) /\
  (launched p = false \/ wait_err p <> None -> fs' = left_behind).
Proof.
  intros url sched now fs fs' calls. unfold DownloadStreamWithProgress, launched.
  destruct (stderr_pipe_err _); [intros [= _ <-]; simpl; auto|].
  destruct (stdout_pipe_err _); [intros [= _ <-]; simpl; auto|].
  destruct (start_err _); [intros [= _ <-]; simpl; auto|].
  destruct (wait_err _); [intros [= _ <-]; simpl; auto|].
  destruct (saveVideoInfo _ _ _ _) as [fs1|] eqn:Hsave; [|discriminate].
  intros [= _ <-]. simpl. split; [|intros [H|H]; congruence].
  intros path Hpath. revert Hsave. unfold saveVideoInfo.
  destruct (run_err _); [intros [= <-]; reflexivity|].
  destruct (json_Unmarshal_object _); [|intros [= <-]; reflexivity].
  destruct (assert_string _); [|discriminate]. intros [= <-].
  unfold append_info. destruct (json_MarshalIndent _); [|reflexivity].
  apply lookup_insert_ne. congruence.
Qed.

End SupervisorMore.

Lemma started_run_forwards_readers_witness :
  exists readers closing : list ProgressFractionMsg,
    (@DownloadStreamWithProgress Examples.ascii_strings Examples.failing_download
       Examples.empty_object_json "https://youtu.be/abc123" [false; true] 0 ∅).1
    = readers ++ closing /\
    readers ≡ₚ
      [mkProgress (-1) "ERROR: unable to download video data"] ++
      [mkProgress (Float64.round64 (5 # 100)) "[youtube] Extracting URL";
       mkProgress (1 # 8) "[download]  12.5% of 3.00MiB"] /\
    [mkProgress (-1) "ERROR: unable to download video data"]
      `sublist_of` readers /\
    [mkProgress (Float64.round64 (5 # 100)) "[youtube] Extracting URL";
     mkProgress (1 # 8) "[download]  12.5% of 3.00MiB"]
      `sublist_of` readers /\
    (0 < length closing <= 2)%nat /\
    Forall (fun call => Fraction call = 1%Q) closing.
Proof.
  apply (@started_run_forwards_readers Examples.ascii_strings
           Examples.failing_download Examples.empty_object_json
           "https://youtu.be/abc123" [false; true] 0 ∅); reflexivity.
Defined.

Lemma download_touches_history_only_witness :
  (forall path : string, path <> "downloads.json" ->
     (<["downloads.json" := "1"]> (<["First.mp4" := "video"]> (∅ : FS))) !! path =
     (if launched (@os_start Examples.writes_video
                     (download_command "https://youtu.be/abc123"))
      then files_after (@os_start Examples.writes_video
                          (download_command "https://youtu.be/abc123")) ∅
      else ∅) !! path) /\
  (launched (@os_start Examples.writes_video
               (download_command "https://youtu.be/abc123")) = false \/
   wait_err (@os_start Examples.writes_video
               (download_command "https://youtu.be/abc123")) <> None ->
   <["downloads.json" := "1"]> (<["First.mp4" := "video"]> (∅ : FS)) =
   (if launched (@os_start Examples.writes_video
                   (download_command "https://youtu.be/abc123"))
    then files_after (@os_start Examples.writes_video
                        (download_command "https://youtu.be/abc123")) ∅
    else ∅)).
Proof.
  apply (@download_touches_history_only Examples.ascii_strings
           Examples.writes_video Examples.titled_json
           "https://youtu.be/abc123" [] 0 ∅
           (<["downloads.json" := "1"]> (<["First.mp4" := "video"]> ∅))
           (@DownloadStreamWithProgress Examples.ascii_strings
              Examples.writes_video Examples.titled_json
              "https://youtu.be/abc123" [] 0 ∅).1).
  vm_compute. reflexivity.
Defined.

(** ** Further properties of the metadata step and of the history *)

Section HistoryMore.

Context {sys : System} {json : Json}.

(** X6. With a title that is a string the metadata step does not panic,
    whatever else the metadata holds or lacks: it appends a record with
    the URL, the title and the time of the call; and when the metadata
    holds the title only, every other field of the record is zero. *)
Theorem saveVideoInfo_with_title : forall (url path title : string) (now : Z)
    (fs : FS) (raw : gmap string json_value),
  run_err (os_run (metadata_command url)) = None ->
  json_Unmarshal_object (run_stdout (os_run (metadata_command url))) = Some raw ->
  raw !! "title" = Some (JString title) ->
  exists info : VideoInfo,
    saveVideoInfo url path now fs = Returned (append_info info path fs) /\
    URL info = url /\ Title info = title /\ DownloadedAt info = now /\
    (raw = {[ "title" := JString title ]} ->
     info = mkVideoInfo url title 0 "" 0 0 0 0 0 0 0 now).
Proof.
  intros url path title now fs raw Hrun Hraw Htitle. unfold saveVideoInfo.
  rewrite Hrun, Hraw, Htitle. simpl. eexists. split; [reflexivity|].
  repeat split. intros ->. reflexivity.
Qed.

(** X7. An append adds the record at the end of the history that was
    there: loading after the append gives what loading gave before,
    followed by the new record, provided the codec gives back that
    collection. *)
Theorem append_info_extends_history : forall (info : VideoInfo) (path : string)
    (fs : FS) (data : string) (e : bool),
  json_MarshalIndent (loadHistory path fs ++ [info]) = Some data ->
  json_Unmarshal_infos data = Decoded (loadHistory path fs ++ [info]) e ->
  loadHistory path (append_info info path fs) = loadHistory path fs ++ [info].
Proof.
  intros info path fs data e Hm Hu. unfold append_info.
  assert (Hold : match fs !! path with
                 | Some d => match json_Unmarshal_infos d with
                             | Decoded l _ => l
                             | Invalid => []
                             end
                 | None => []
                 end = loadHistory path fs).
  { unfold loadHistory. destruct (fs !! path); reflexivity. }
  rewrite Hold, Hm, loadHistory_insert, Hu. reflexivity.
Qed.

End HistoryMore.

Lemma saveVideoInfo_with_title_witness :
  exists info : VideoInfo,
    @saveVideoInfo Examples.titled_metadata Examples.titled_json
      "https://youtu.be/abc123" "downloads.json" 1700000000 ∅ =
    Returned (@append_info Examples.titled_json info "downloads.json" ∅) /\
    URL info = "https://youtu.be/abc123" /\ Title info = "First" /\
    DownloadedAt info = 1700000000%Z /\
    (({[ "title" := JString "First" ]} : gmap string json_value)
     = {[ "title" := JString "First" ]} ->
     info = mkVideoInfo "https://youtu.be/abc123" "First" 0 "" 0 0 0 0 0 0 0
              1700000000).
Proof.
  apply (@saveVideoInfo_with_title Examples.titled_metadata Examples.titled_json
           "https://youtu.be/abc123" "downloads.json" "First" 1700000000 ∅
           {[ "title" := JString "First" ]}); reflexivity.
Defined.

Lemma append_info_extends_history_witness :
  @loadHistory Examples.two_document_json "downloads.json"
    (@append_info Examples.two_document_json Examples.record2 "downloads.json"
       {[ "downloads.json" := "1" ]})
  = @loadHistory Examples.two_document_json "downloads.json"
      {[ "downloads.json" := "1" ]} ++ [Examples.record2].
Proof.
  apply (@append_info_extends_history Examples.two_document_json Examples.record2
           "downloads.json" {[ "downloads.json" := "1" ]} "2" false);
    reflexivity.
Defined.

(** ** Further properties of the title lookup *)

Section TitlesMore.

Context {strs : Strings} {sys : System}.

(** X8. The synchronous lookup and the asynchronous one give the same
    title and the same error for the same outcome of the query. *)
Theorem FetchTitle_agrees_with_async : forall url : string,
  FetchTitle url (os_run (title_command url)) =
  (tf_Title (FetchTitleAsync url), tf_Error (FetchTitleAsync url)).
Proof.
  intros url. unfold FetchTitle, FetchTitleAsync.
  destruct (run_err (os_run (title_command url))); [reflexivity|].
  destruct (is_empty (TrimSpace _)); reflexivity.
Qed.

End TitlesMore.

(** X9. For a URL that holds neither of the two markers the name is the
    URL without its scheme, cut to 47 bytes and three dots when it is
    longer than 50 bytes: it is never longer than 50 bytes. *)
Theorem extractURLName_generic : forall url u : string,
  without_scheme url u ->
  ~ occurs "youtube.com/watch?v=" u -> ~ occurs "youtu.be/" u ->
  extractURLName url = (if (50 <? len u)%nat then upto 47 u +:+ "..." else u) /\
  (len (extractURLName url) <= 50)%nat.
Proof.
  intros url u Hu Hw Hs.
  assert (Hname : extractURLName url =
                  if (50 <? len u)%nat then upto 47 u +:+ "..." else u).
  { unfold extractURLName. rewrite (strip_scheme _ _ Hu).
    rewrite (Contains_false _ _ Hw), (Contains_false _ _ Hs). reflexivity. }
  split; [exact Hname|]. rewrite Hname.
  destruct (Nat.ltb_spec 50 (len u)) as [Hlong|Hshort]; [|exact Hshort].
  rewrite len_append, len_upto by lia. simpl. lia.
Qed.

Lemma extractURLName_generic_witness :
  extractURLName "https://vimeo.com/channels/staffpicks/videos/recent/page:3/1234567"
  = (if (50 <? len "vimeo.com/channels/staffpicks/videos/recent/page:3/1234567")%nat
     then upto 47 "vimeo.com/channels/staffpicks/videos/recent/page:3/1234567" +:+ "..."
     else "vimeo.com/channels/staffpicks/videos/recent/page:3/1234567") /\
  (len (extractURLName
          "https://vimeo.com/channels/staffpicks/videos/recent/page:3/1234567")
   <= 50)%nat.
Proof.
  apply (extractURLName_generic
           "https://vimeo.com/channels/staffpicks/videos/recent/page:3/1234567"
           "vimeo.com/channels/staffpicks/videos/recent/page:3/1234567").
  - left. exists "https". split; reflexivity.
  - intros H. apply Contains_true in H. vm_compute in H. discriminate.
  - intros H. apply Contains_true in H. vm_compute in H. discriminate.
Defined.

(** ** Further properties of the interface *)

Lemma len_truncateString : forall (s : string) (maxLen : nat),
  (3 <= maxLen)%nat ->
  len (truncateString s maxLen) = Nat.min (len s) maxLen.
Proof.
  intros s maxLen Hmax. unfold truncateString.
  destruct (Nat.leb_spec (len s) maxLen) as [Hfit|Hlong]; [lia|].
  rewrite len_append, len_upto by lia. simpl. lia.
Qed.

(** X10. A name cut by [truncateString] to a width of at least 3 fits the
    width, and it is the name itself exactly when the name fits. *)
Theorem truncateString_fits : forall (s : string) (maxLen : nat),
  (3 <= maxLen)%nat ->
  (len (truncateString s maxLen) <= maxLen)%nat /\
  (truncateString s maxLen = s <-> (len s <= maxLen)%nat).
Proof.
  intros s maxLen Hmax. pose proof (len_truncateString s maxLen Hmax) as Hlen.
  split; [lia|]. split.
  - intros H. rewrite H in Hlen. lia.
  - intros H. unfold truncateString.
    destruct (Nat.leb_spec (len s) maxLen); [reflexivity|lia].
Qed.

Lemma truncateString_fits_witness :
  (len (truncateString "HTTPS://WWW.YOUTUBE.COM/WATCH?V=ABC123" 28) <= 28)%nat /\
  (truncateString "HTTPS://WWW.YOUTUBE.COM/WATCH?V=ABC123" 28
   = "HTTPS://WWW.YOUTUBE.COM/WATCH?V=ABC123"
   <-> (len "HTTPS://WWW.YOUTUBE.COM/WATCH?V=ABC123" <= 28)%nat).
Proof.
  apply (truncateString_fits "HTTPS://WWW.YOUTUBE.COM/WATCH?V=ABC123" 28). lia.
Defined.

Section InterfaceMore.

Context {strs : Strings} {json : Json} {wid : Widgets}.

Lemma apply_title_renamed : forall (url title : string) (err : option string)
    (st : string) (q : list VideoDownload),
  Forall2 (renamed url) q (apply_title url title err st q).2.
Proof.
  intros url title err st q. induction q as [|vd q IH]; simpl; [constructor|].
  destruct (String.eqb_spec (vd_URL vd) url) as [Hurl|_].
  - assert (Hrefl : Forall2 (renamed url) q q).
    { clear. induction q; constructor; [left; reflexivity|assumption]. }
    destruct (bool_decide (err = None) && negb (is_empty title)); simpl;
      (constructor; [right|exact Hrefl]);
      (split; [exact Hurl|split; [|reflexivity]]); simpl;
      rewrite len_truncateString; lia.
  - destruct (apply_title url title err st q) as [st' q']. simpl in *.
    constructor; [left; reflexivity|exact IH].
Qed.

(** X11. A title message renames at most entries of its URL, to a name of
    at most 28 bytes, and leaves the fraction, the log, the channel and
    the completion flag of every entry as they were. *)
Theorem title_message_renames : forall (fs : FS) (m : model) (url title : string)
    (err : option string),
  Forall2 (renamed url) (videoQueue m)
    (videoQueue (Update fs m (titleFetchedMsg url title err)).1).
Proof.
  intros fs m url title err. unfold Update, dispatch.
  pose proof (apply_title_renamed url title err (status m) (videoQueue m)) as H.
  destruct (apply_title _ _ _ _ _) as [st q]. exact H.
Qed.

Lemma apply_progress_well_kept : forall (vd : VideoDownload)
    (pm : ProgressFractionMsg) (ch' : chan),
  well_kept vd -> closed ch' = false -> well_kept (apply_progress vd pm ch').
Proof.
  intros vd pm ch' (Hopen & Hlen & Hlines & Hpct) Hch. unfold apply_progress.
  repeat split; simpl.
  - exact Hch.
  - destruct (is_empty (Line pm)); [exact Hlen|].
    destruct (Nat.ltb_spec 5 (length (Log vd ++ [Line pm]))) as [H|H];
      [|exact H].
    rewrite length_drop, length_app. simpl. lia.
  - destruct (is_empty (Line pm)) eqn:E; [exact Hlines|].
    assert (Hall : Forall (fun line => line <> "") (Log vd ++ [Line pm])).
    { apply Forall_app. split; [exact Hlines|].
      constructor; [apply is_empty_false, E|constructor]. }
    destruct (5 <? length (Log vd ++ [Line pm]))%nat; [|exact Hall].
    apply Forall_drop, Hall.
  - destruct (Qle_bool 0 (Fraction pm)) eqn:E; [|exact Hpct].
    apply Qle_bool_iff, E.
Qed.

Lemma drain_entry_well_kept : forall (fs : FS) (sh : shared) (vd : VideoDownload),
  well_kept vd -> well_kept (drain_entry fs sh vd).2.
Proof.
  intros fs sh vd Hvd. unfold drain_entry, try_recv.
  destruct (Done vd); [exact Hvd|].
  destruct (buf (ProgressCh vd)) as [|pm rest] eqn:Hbuf.
  - destruct Hvd as (Hopen & Hrest). rewrite Hopen. simpl. split; assumption.
  - simpl. apply apply_progress_well_kept; [exact Hvd|]. simpl. apply Hvd.
Qed.

Lemma run_entry_well_kept : forall (fs : FS) (acts : list activity)
    (sh : shared) (vd : VideoDownload),
  well_kept vd ->
  exists sh' vd', run_entry fs acts (sh, vd) = Returned (sh', vd') /\ well_kept vd'.
Proof.
  intros fs acts. induction acts as [|a acts IH]; intros sh vd Hvd.
  - exists sh, vd. auto.
  - destruct a as [pm|]; simpl.
    + destruct Hvd as (Hopen & Hrest).
      destruct (try_send_open (ProgressCh vd) pm Hopen) as (ch' & -> & Hopen').
      apply IH. split; assumption.
    + pose proof (drain_entry_well_kept fs sh vd Hvd) as H.
      destruct (drain_entry fs sh vd) as [sh1 vd1]. apply IH, H.
Qed.

Lemma new_download_well_kept : forall url : string, well_kept (new_download url).
Proof. intros url. repeat split; simpl; [lia|constructor|discriminate]. Qed.

(** X12. Whatever is offered to an entry and however often it is drained,
    its log holds at most 5 lines and no empty one. *)
Theorem log_holds_five_lines : forall (fs : FS) (acts : list activity)
    (sh : shared) (url : string),
  exists sh' vd',
    run_entry fs acts (sh, new_download url) = Returned (sh', vd') /\
    (length (Log vd') <= 5)%nat /\ Forall (fun line => line <> "") (Log vd').
Proof.
  intros fs acts sh url.
  destruct (run_entry_well_kept fs acts sh _ (new_download_well_kept url))
    as (sh' & vd' & Hrun & _ & Hlen & Hlines & _).
  eauto.
Qed.

(** X13. Whatever fractions are offered to an entry, negative ones
    included, the fraction it stores is never negative. *)
Theorem stored_fraction_not_negative : forall (fs : FS) (acts : list activity)
    (sh : shared) (url : string),
  exists sh' vd',
    run_entry fs acts (sh, new_download url) = Returned (sh', vd') /\
    (0 <= Percent vd')%Q.
Proof.
  intros fs acts sh url.
  destruct (run_entry_well_kept fs acts sh _ (new_download_well_kept url))
    as (sh' & vd' & Hrun & _ & _ & _ & Hpct).
  eauto.
Qed.

Lemma drain_entry_drained : forall (fs : FS) (sh : shared) (vd : VideoDownload),
  drained vd (drain_entry fs sh vd).2.
Proof.
  intros fs sh vd. unfold drained, drain_entry, try_recv.
  destruct (Done vd) eqn:Hdone; [auto|].
  destruct (buf (ProgressCh vd)) as [|pm rest] eqn:Hbuf.
  - destruct (closed (ProgressCh vd)); simpl; rewrite ?Hbuf; auto.
  - simpl. auto.
Qed.

Lemma drain_pass_takes_one_each_aux : forall (fs : FS) (sh : shared)
    (q : list VideoDownload),
  Forall2 drained q (drain_queue fs sh q).2.
Proof.
  intros fs sh q. revert sh. induction q as [|vd q IH]; intros sh; simpl;
    [constructor|].
  pose proof (drain_entry_drained fs sh vd) as Hvd.
  destruct (drain_entry fs sh vd) as [sh1 vd1].
  specialize (IH sh1). destruct (drain_queue fs sh1 q) as [sh2 q'].
  constructor; assumption.
Qed.

(** X14. One pass of the drain loop, as a [setFormatMsg] starts it, keeps
    the entries in place and takes from the channel of each entry that is
    not done its oldest message, if it has one, and nothing else. *)
Theorem drain_pass_takes_one_each : forall (fs : FS) (m : model) (format : string),
  Forall2 drained (videoQueue m)
    (videoQueue (Update fs m (setFormatMsg format)).1).
Proof.
  intros fs m format. unfold Update, dispatch.
  pose proof (drain_pass_takes_one_each_aux fs
                (mkShared (status m) (history m) (selectedIndex m))
                (videoQueue m)) as H.
  destruct (drain_queue _ _ _) as [sh q]. exact H.
Qed.

Lemma apply_title_urls : forall (url title : string) (err : option string)
    (st : string) (q : list VideoDownload),
  vd_URL <$> (apply_title url title err st q).2 = vd_URL <$> q.
Proof.
  intros url title err st q. induction q as [|vd q IH]; simpl; [reflexivity|].
  destruct (String.eqb (vd_URL vd) url).
  - destruct (bool_decide (err = None) && negb (is_empty title)); reflexivity.
  - destruct (apply_title url title err st q) as [st' q']. simpl in *.
    f_equal. exact IH.
Qed.

Lemma drain_queue_urls : forall (fs : FS) (sh : shared) (q : list VideoDownload),
  vd_URL <$> (drain_queue fs sh q).2 = vd_URL <$> q.
Proof.
  intros fs sh q.
  pose proof (drain_pass_takes_one_each_aux fs sh q) as H.
  induction H as [|old new q q' (Hurl & _) _ IH]; [reflexivity|].
  rewrite !fmap_cons, Hurl, IH. reflexivity.
Qed.

(** X15. No message removes an entry from the queue or changes the URL
    of one: the URLs of the queue before [Update] are the first URLs of
    the queue after it. *)
Theorem queue_urls_only_grow : forall (fs : FS) (m : model) (msg : Msg),
  (vd_URL <$> videoQueue m) `prefix_of`
  (vd_URL <$> videoQueue (Update fs m msg).1).
Proof.
  intros fs m msg.
  destruct msg as [w h|url title err|key| |format|]; simpl; try reflexivity.
  - pose proof (apply_title_urls url title err (status m) (videoQueue m)) as H.
    destruct (apply_title _ _ _ _ _) as [st q]. simpl in *. rewrite H.
    reflexivity.
  - destruct (String.eqb key "ctrl+c" || String.eqb key "esc"); [reflexivity|].
    unfold key_pressed.
    destruct (String.eqb key "m"); [reflexivity|].
    destruct (String.eqb key "enter").
    { destruct (is_empty _); simpl; [reflexivity|].
      rewrite fmap_app. apply prefix_app_r. reflexivity. }
    destruct (String.eqb key "up"); [reflexivity|].
    destruct (String.eqb key "down"); reflexivity.
  - pose proof (drain_queue_urls fs
                  (mkShared (status m) (history m) (selectedIndex m))
                  (videoQueue m)) as H.
    destruct (drain_queue _ _ _) as [sh q]. simpl in *. rewrite H. reflexivity.
Qed.

(** X16. The enter key on an input that is blank after trimming adds no
    entry and starts nothing; on any other input it adds one fresh entry
    for the trimmed URL at the end of the queue, and the download command
    it returns names the position of that entry and the format chosen at
    that moment. *)
Theorem enter_queues_one_entry : forall (fs : FS) (m : model),
  (TrimSpace (ti_Value (textInput m)) = "" ->
   videoQueue (Update fs m (KeyMsg "enter")).1 = videoQueue m /\
   (Update fs m (KeyMsg "enter")).2 = []) /\
  (TrimSpace (ti_Value (textInput m)) <> "" ->
   videoQueue (Update fs m (KeyMsg "enter")).1 =
     videoQueue m ++ [new_download (TrimSpace (ti_Value (textInput m)))] /\
   (Update fs m (KeyMsg "enter")).2 =
     [fetchTitleCmd (TrimSpace (ti_Value (textInput m)));
      startDownloadCmd (length (videoQueue m)) (downloadFormat m)] /\
   videoQueue (Update fs m (KeyMsg "enter")).1 !! length (videoQueue m) =
     Some (new_download (TrimSpace (ti_Value (textInput m))))).
Proof.
  intros fs m. unfold Update, dispatch, key_pressed. simpl. split.
  - intros H. apply is_empty_true in H. rewrite H. auto.
  - intros H. apply is_empty_false in H. rewrite H. simpl.
    repeat split. apply list_lookup_middle. reflexivity.
Qed.

Lemma recv_n_take : forall (n : nat) (ch : chan),
  recv_n n ch = take n (buf ch).
Proof.
  induction n as [|n IH]; intros [b c cl]; simpl; [reflexivity|].
  unfold try_recv; simpl. destruct b as [|pm rest].
  - destruct cl; reflexivity.
  - rewrite IH. reflexivity.
Qed.

(** X17. The queue of an entry is first in, first out: of the messages
    offered before any drain, [n] receives take the first [n] that were
    kept, in the order in which they were offered. *)
Theorem queue_is_first_in_first_out : forall (url : string)
    (evs : list ProgressFractionMsg) (n : nat),
  exists ch : chan,
    deliver (ProgressCh (new_download url)) evs = Returned ch /\
    recv_n n ch = take n (take 50 evs).
Proof.
  intros url evs n. eexists. split.
  - apply deliver_open; simpl; [reflexivity|lia].
  - rewrite recv_n_take. reflexivity.
Qed.

(** X18. The m key leaves one of the two formats selected, and two
    presses restore a format that was one of the two. *)
Theorem format_key_toggles : forall (fs : FS) (m : model),
  let once := (Update fs m (KeyMsg "m")).1 in
  let twice := (Update fs once (KeyMsg "m")).1 in
  (downloadFormat once = "mp4" \/ downloadFormat once = "mp3") /\
  (downloadFormat m = "mp4" \/ downloadFormat m = "mp3" ->
   downloadFormat twice = downloadFormat m).
Proof.
  intros fs m. simpl.
  destruct (String.eqb_spec (downloadFormat m) "mp4") as [H|H]; simpl.
  - split; [auto|]. intros _. symmetry. exact H.
  - split; [auto|]. intros [H'|H']; [congruence|]. symmetry. exact H'.
Qed.

End InterfaceMore.

Lemma ticks_show_no_progress_witness :
  exists m : @model Examples.plain_widgets,
    @run Examples.ascii_strings Examples.empty_object_json Examples.plain_widgets
      [Deliver ∅ (KeyMsg "u"); Deliver ∅ (KeyMsg "enter"); Deliver ∅ tickMsg;
       Produce 0 (mkProgress (1 # 2) "[download]  50.0% of 3.00MiB");
       Deliver ∅ tickMsg]
      (@InitialModel Examples.empty_object_json Examples.plain_widgets
         "" "0000000000000000" ∅)
    = Returned m /\
    Forall untouched (videoQueue m).
Proof.
  eexists. split; [reflexivity|].
  apply (@ticks_show_no_progress Examples.ascii_strings Examples.empty_object_json
           Examples.plain_widgets "" "0000000000000000" ∅
           [Deliver ∅ (KeyMsg "u"); Deliver ∅ (KeyMsg "enter"); Deliver ∅ tickMsg;
            Produce 0 (mkProgress (1 # 2) "[download]  50.0% of 3.00MiB");
            Deliver ∅ tickMsg]);
    reflexivity.
Defined.

(** ** The hex text *)

Lemma hex_digit_returns : forall raw : nat,
  exists c : ascii, Hex.hex_digit raw = Returned c /\ Hex.is_hex c = true.
Proof.
  intros raw. unfold Hex.hex_digit, Hex.Intn.
  change (len Hex.hexChars) with 16%nat. change (16 =? 0)%nat with false.
  cbv iota.
  pose proof (Nat.mod_upper_bound raw 16 ltac:(lia)) as H.
  revert H. generalize (raw mod 16)%nat as i. intros i H.
  do 16 (destruct i as [|i]; [eexists; split; reflexivity|]). lia.
Qed.

Lemma fill_hex_returns : forall (n : nat) (draws : nat -> nat) (k : nat),
  exists s : string,
    Hex.fill_hex n draws k = Returned s /\
    len s = n /\ all Hex.is_hex s = true.
Proof.
  induction n as [|n IH]; intros draws k; simpl.
  - exists "". auto.
  - destruct (hex_digit_returns (draws k)) as (c & -> & Hc).
    destruct (IH draws (S k)) as (s & -> & Hlen & Hall).
    exists (String c s). simpl. rewrite Hlen, Hc, Hall. auto.
Qed.

(** X19. [randomHexString] never indexes its alphabet out of range: for
    every length that is not negative and every run of the generator it
    returns a string of that length made of hex digits. On a negative
    length it panics. *)
Theorem randomHexString_is_hex : forall (length : Z) (draws : nat -> nat) (k : nat),
  ((0 <= length)%Z ->
   exists s : string,
     Hex.randomHexString length draws k = Returned s /\
     Z.of_nat (len s) = length /\ all Hex.is_hex s = true) /\
  ((length < 0)%Z ->
   Hex.randomHexString length draws k = Panicked "makeslice: len out of range").
Proof.
  intros length draws k. unfold Hex.randomHexString. split; intros H.
  - destruct (Z.ltb_spec length 0) as [Hneg|_]; [lia|].
    destruct (fill_hex_returns (Z.to_nat length) draws k) as (s & -> & Hlen & Hall).
    exists s. split; [reflexivity|]. split; [lia|exact Hall].
  - destruct (Z.ltb_spec length 0) as [_|Hpos]; [reflexivity|lia].
Qed.

Lemma randomHexString_is_hex_witness :
  (exists s : string,
     Hex.randomHexString 16 Examples.counting 0 = Returned s /\
     Z.of_nat (len s) = 16%Z /\ all Hex.is_hex s = true) /\
  Hex.randomHexString (-1) Examples.counting 0 =
  Panicked "makeslice: len out of range".
Proof.
  split.
  - apply (proj1 (randomHexString_is_hex 16 Examples.counting 0)). lia.
  - apply (proj2 (randomHexString_is_hex (-1) Examples.counting 0)). lia.
Defined.





(** ** Two runs of the supervisor *)

Lemma started_run_ends_with_marker_witness :
  last (@DownloadStreamWithProgress Examples.ascii_strings Examples.failing_download
          Examples.empty_object_json "https://youtu.be/abc123" [true; false] 0 ∅).1
  = Some (mkProgress 1 "").
Proof.
  apply (@started_run_ends_with_marker Examples.ascii_strings
           Examples.failing_download Examples.empty_object_json
           "https://youtu.be/abc123" [true; false] 0 ∅ ∅);
    reflexivity.
Defined.

Lemma supervisor_reads_its_commands_witness :
  @DownloadStreamWithProgress Examples.ascii_strings Examples.other_commands_fail
    Examples.titled_json "https://youtu.be/abc123" [] 0 ∅ =
  @DownloadStreamWithProgress Examples.ascii_strings Examples.titled_metadata
    Examples.titled_json "https://youtu.be/abc123" [] 0 ∅.
Proof.
  apply (@supervisor_reads_its_commands Examples.ascii_strings
           Examples.titled_metadata Examples.titled_json
           Examples.other_commands_fail "https://youtu.be/abc123" [] 0 ∅);
    reflexivity.
Defined.
